(** * PDF Merger: a shallow embedding of [main.py] and its specification

    The program scans the directory [input] for [*.pdf] files, validates
    them, sorts them by lower-cased name, appends their pages to one
    [PdfWriter] and writes the result into the directory [output].

    Modelling decisions, all visible in the definitions below:

    - Python exceptions are values of type [exn] (type name and message).
      Code that can raise lives in the monad [M S], where the state [S]
      holds the mutable objects of the function (lists being appended to,
      counters).  A raise keeps the state: what was mutated before the
      exception stays mutated, as in Python.
    - The filesystem is a value of type [filesystem]: the working
      directory with its search and write permission, the directories in
      it, their permissions and their entries.  An entry is a regular file
      or a symbolic link that does not resolve.  What the program reads
      ([Path.exists], [os.access], [Path.stat], [PdfReader], [Path.glob])
      is a function of that value and returns or raises as the library
      does ([Path.exists] re-raises PermissionError, [os.access] answers
      False, [Path.glob] yields nothing for a directory it cannot list);
      the program is the only one acting on the filesystem while it runs.
    - [pdf_merger_debug.log] sits in the working directory, beside the two
      directories.  Whether it accepts a writer is given with the
      environment of the run; its text is not kept as bytes but as the
      log of the [world].
    - PyPDF2 is outside the repository.  A file carries, next to its bytes,
      the way the codec reads it ([f_pdf]): opening raises, or yields a
      sequence of page slots, each of which yields a page or raises when it
      is fetched and added to the writer.
    - [PdfWriter.write] into a freshly opened destination is a parameter
      ([write_pdf]) of the merge engine: the source itself does not trust
      it and re-checks the destination afterwards.
    - A filename is a sequence of code points below 256, one per [ascii];
      strings compare by code point, as [str] does.
    - Of the log only WARNING and ERROR records are kept, as structured
      events; elapsed time ([merge_time]) is not modelled. *)

From Stdlib Require Import String Ascii List Bool Arith PeanoNat NArith Lia.
From Stdlib Require Import Permutation Sorted.
Import ListNotations.

Local Open Scope string_scope.
Local Open Scope list_scope.

(* ================================================================== *)
(** ** Exceptions and the state-with-exceptions monad *)
(* ================================================================== *)

(** A Python exception: [type(e).__name__] and [str(e)]. *)
Record exn : Type := Exn { exn_type : string; exn_msg : string }.

Inductive outcome (A : Type) : Type :=
| Ok (a : A)
| Raise (e : exn).
Arguments Ok {A} a.
Arguments Raise {A} e.

Definition is_ok {A} (o : outcome A) : bool :=
  match o with Ok _ => true | Raise _ => false end.

(** A computation over mutable state [S] that returns or raises. *)
Definition M (S A : Type) : Type := S -> outcome A * S.

Definition ret {S A} (a : A) : M S A := fun s => (Ok a, s).

Definition bind {S A B} (c : M S A) (k : A -> M S B) : M S B :=
  fun s =>
    match c s with
    | (Ok a, s') => k a s'
    | (Raise e, s') => (Raise e, s')
    end.

(** [lift o]: the value of a call whose outcome [o] does not touch [S]. *)
Definition lift {S A} (o : outcome A) : M S A := fun s => (o, s).

Definition gets {S A} (f : S -> A) : M S A := fun s => (Ok (f s), s).

Definition modify {S} (f : S -> S) : M S unit := fun s => (Ok tt, f s).

(** [try: c except Exception as e: h e] *)
Definition try_except {S A} (c : M S A) (h : exn -> M S A) : M S A :=
  fun s =>
    match c s with
    | (Ok a, s') => (Ok a, s')
    | (Raise e, s') => h e s'
    end.

Declare Scope monad_scope.
Delimit Scope monad_scope with monad.
Notation "x <- c ;; k" := (bind c (fun x => k))
  (at level 61, c at next level, right associativity) : monad_scope.
Notation "c ;; k" := (bind c (fun _ => k))
  (at level 61, right associativity) : monad_scope.
Local Open Scope monad_scope.

(** [for x in xs: body x]; an exception leaving [body] leaves the loop. *)
Fixpoint for_each {S A} (xs : list A) (body : A -> M S unit) : M S unit :=
  match xs with
  | [] => ret tt
  | x :: rest => body x ;; for_each rest body
  end.

(* ================================================================== *)
(** ** The log *)
(* ================================================================== *)

Inductive level : Type := WARNING | ERROR.

(** One constructor per [logger.warning] / [logger.error] call of the
    source, with the values interpolated into its message. *)
Inductive event : Type :=
| PyPDF2NotInstalled                          (* check_system_requirements *)
| MkdirFailed (directory : string) (e : exn)  (* validate_directories *)
| NoReadPermissionDir (directory : string)
| NoWritePermissionDir (directory : string)
| NoPdfFilesFound                             (* find_and_validate_pdf_files *)
| FileDoesNotExist (filename : string)
| NoReadPermissionFile (filename : string)
| FileIsEmpty (filename : string)
| PdfHasNoPages (filename : string)
| InvalidPdfFile (filename : string) (e : exn)
| FailedToProcess (filename : string) (e : exn) (* merge_pdf_files *)
| OutputFileNotFound
| MergeFailed (e : exn)
| RequirementsNotMet                          (* merge_pdfs *)
| DirectoryValidationFailed
| NoValidPdfFiles
| OnlyOnePdfFile
| FailedToCopy (e : exn)
| SummaryStatusFailed                         (* print_merge_summary *)
| SummaryError (error : string).

Definition log_record : Type := level * event.
Definition log : Type := list log_record.

(* ================================================================== *)
(** ** Files, directories, paths *)
(* ================================================================== *)

(** A page is copied as it is from a source document to the writer. *)
Record page : Type := Page { page_content : string }.

(** What [reader.pages[i]] followed by [writer.add_page] does for one
    page of an opened document. *)
Definition page_slot : Type := outcome page.

Record file : Type := File {
  f_readable : bool;                      (* os.access(f, os.R_OK) *)
  f_writable : bool;                      (* os.access(f, os.W_OK) *)
  f_owned : bool;                         (* os.utime and os.chmod are permitted *)
  f_data : string;                        (* the bytes of the file *)
  f_pdf : outcome (list page_slot)        (* PdfReader(f), len(reader.pages) *)
}.

(** An entry of a directory: a regular file, or a symbolic link whose
    target is missing and cannot be created either (its directory is
    missing too).  The directory lists both. *)
Inductive node : Type :=
| Regular (f : file)
| Dangling.

Record directory : Type := Directory {
  d_readable : bool;                      (* r: the entries can be listed *)
  d_writable : bool;                      (* w: entries can be added *)
  d_searchable : bool;                    (* x: the entries can be reached *)
  d_entries : list (string * node)        (* in enumeration order *)
}.

(** The access a process has to what it has just created: the owner's
    bits of [0o777 & ~umask] for a directory, of [0o666 & ~umask] for a
    file. *)
Record mode : Type := Mode {
  m_read : bool;
  m_write : bool;
  m_search : bool
}.

Record filesystem : Type := Filesystem {
  cwd_searchable : bool;                  (* x on the working directory *)
  cwd_writable : bool;                    (* w on the working directory *)
  created_mode : mode;
  fs_dirs : list (string * directory)     (* directories of the cwd *)
}.

(** [pathlib.Path] of a file inside a directory of the working directory:
    [parent / name]. *)
Record Path : Type := mkPath { parent : string; name : string }.

Definition joinpath (dir : string) (filename : string) : Path :=
  mkPath dir filename.

(** [str(p)] *)
Definition str (p : Path) : string := parent p ++ "/" ++ name p.

Definition path_eqb (p q : Path) : bool :=
  String.eqb (parent p) (parent q) && String.eqb (name p) (name q).

Fixpoint assoc {A} (k : string) (l : list (string * A)) : option A :=
  match l with
  | [] => None
  | (k', v) :: rest => if String.eqb k k' then Some v else assoc k rest
  end.

(** Replace the value stored under [k], or add the binding at the end. *)
Fixpoint assoc_set {A} (k : string) (v : A) (l : list (string * A))
  : list (string * A) :=
  match l with
  | [] => [(k, v)]
  | (k', v') :: rest =>
      if String.eqb k k' then (k, v) :: rest else (k', v') :: assoc_set k v rest
  end.

Definition lookup_dir (fs : filesystem) (d : string) : option directory :=
  assoc d (fs_dirs fs).

Definition dir_exists (fs : filesystem) (d : string) : bool :=
  match lookup_dir fs d with Some _ => true | None => false end.

(** Search permission on [d]; a directory that is not there refuses
    nothing. *)
Definition dir_searchable (fs : filesystem) (d : string) : bool :=
  match lookup_dir fs d with Some x => d_searchable x | None => true end.

(** Whether a system call gets as far as the entries of [d]: it needs
    search permission on the working directory and on [d]. *)
Definition can_search (fs : filesystem) (d : string) : bool :=
  cwd_searchable fs && dir_searchable fs d.

Definition regular (n : option node) : option file :=
  match n with
  | Some (Regular f) => Some f
  | _ => None
  end.

(** The file a path resolves to: what [os.stat] and [open] reach. *)
Definition lookup_file (fs : filesystem) (p : Path) : option file :=
  match lookup_dir fs (parent p) with
  | Some d =>
      if cwd_searchable fs && d_searchable d
      then regular (assoc (name p) (d_entries d))
      else None
  | None => None
  end.

Definition FileNotFoundError (p : string) : exn :=
  Exn "FileNotFoundError" ("[Errno 2] No such file or directory: '" ++ p ++ "'").
Definition PermissionError (p : string) : exn :=
  Exn "PermissionError" ("[Errno 13] Permission denied: '" ++ p ++ "'").
Definition NotPermittedError : exn :=
  Exn "PermissionError" "[Errno 1] Operation not permitted".
Definition SameFileError (p q : string) : exn :=
  Exn "SameFileError"
      ("PosixPath('" ++ p ++ "') and PosixPath('" ++ q ++ "') are the same file").

(** The OSError of a system call that does not reach a file at [p]. *)
Definition resolve_error (fs : filesystem) (p : Path) : exn :=
  if can_search fs (parent p) then FileNotFoundError (str p)
  else PermissionError (str p).

(** *** What the program reads *)

(** [directory.exists()]: [os.stat] of a name in the working directory.
    ENOENT is answered with False, EACCES is re-raised. *)
Definition Path_exists_dir (fs : filesystem) (d : string) : outcome bool :=
  if cwd_searchable fs then Ok (dir_exists fs d)
  else Raise (PermissionError d).

(** [os.access(directory, os.R_OK)], [os.access(directory, os.W_OK)]:
    False on any error. *)
Definition dir_access_R (fs : filesystem) (d : string) : bool :=
  cwd_searchable fs &&
  match lookup_dir fs d with Some x => d_readable x | None => false end.

Definition dir_access_W (fs : filesystem) (d : string) : bool :=
  cwd_searchable fs &&
  match lookup_dir fs d with Some x => d_writable x | None => false end.

(** Whether [p] resolves to a file. *)
Definition path_exists (fs : filesystem) (p : Path) : bool :=
  match lookup_file fs p with Some _ => true | None => false end.

(** [p.exists()]: [os.stat(p)].  ENOENT (no such entry, or a link that
    does not resolve) is answered with False; EACCES (no search permission
    on the way) is re-raised. *)
Definition Path_exists (fs : filesystem) (p : Path) : outcome bool :=
  if can_search fs (parent p) then Ok (path_exists fs p)
  else Raise (PermissionError (str p)).

(** [os.access(p, os.R_OK)]: False on any error. *)
Definition access_R (fs : filesystem) (p : Path) : bool :=
  match lookup_file fs p with Some f => f_readable f | None => false end.

(** [p.stat().st_size] *)
Definition stat_size (fs : filesystem) (p : Path) : outcome nat :=
  match lookup_file fs p with
  | Some f => Ok (String.length (f_data f))
  | None => Raise (resolve_error fs p)
  end.

(** [reader = PdfReader(str(p))] together with [len(reader.pages)]: the
    page slots of the document, or the exception either call raises. *)
Definition PdfReader (fs : filesystem) (p : Path) : outcome (list page_slot) :=
  match lookup_file fs p with
  | None => Raise (resolve_error fs p)
  | Some f => if f_readable f then f_pdf f else Raise (PermissionError (str p))
  end.

(** [s.endswith(suffix)] *)
Fixpoint ends_with (suffix s : string) : bool :=
  if String.eqb s suffix then true
  else match s with
       | EmptyString => false
       | String _ s' => ends_with suffix s'
       end.

(** What enumerating [d] yields: its entries, none when [d] is missing or
    cannot be listed. *)
Definition listing (fs : filesystem) (d : string) : list (string * node) :=
  match lookup_dir fs d with
  | Some x => if d_readable x then d_entries x else []
  | None => []
  end.

(** The paths [d.glob("*" + suffix)] yields: the entries of [d] whose
    name ends in [suffix], in enumeration order.  The pattern is matched
    against the names alone, so links that do not resolve are among
    them. *)
Definition glob (fs : filesystem) (d : string) (suffix : string) : list Path :=
  map (fun e => joinpath d (fst e))
      (filter (fun e => ends_with suffix (fst e)) (listing fs d)).

Definition glob_pdf (fs : filesystem) (d : string) : list Path :=
  glob fs d ".pdf".

(** [list(d.glob("*" + suffix))]: [glob] first asks whether [d] is a
    directory ([os.stat], EACCES re-raised); the PermissionError of
    [os.scandir] on a directory that cannot be listed is swallowed. *)
Definition Path_glob (fs : filesystem) (d : string) (suffix : string)
  : outcome (list Path) :=
  if cwd_searchable fs then Ok (glob fs d suffix)
  else Raise (PermissionError d).

(** *** What the program changes *)

Definition set_dir (fs : filesystem) (d : string) (x : directory) : filesystem :=
  Filesystem (cwd_searchable fs) (cwd_writable fs) (created_mode fs)
             (assoc_set d x (fs_dirs fs)).

(** The directory [mkdir] makes. *)
Definition fresh_directory (fs : filesystem) : directory :=
  Directory (m_read (created_mode fs)) (m_write (created_mode fs))
            (m_search (created_mode fs)) [].

(** [directory.mkdir(parents=True, exist_ok=True)] for a directory of the
    working directory. *)
Definition mkdir (fs : filesystem) (d : string) : outcome filesystem :=
  if dir_exists fs d then Ok fs
  else if cwd_searchable fs && cwd_writable fs
       then Ok (set_dir fs d (fresh_directory fs))
       else Raise (PermissionError d).

(** Put the regular file [f] under the name of [p] in its directory. *)
Definition put_file (fs : filesystem) (p : Path) (f : file) : filesystem :=
  match lookup_dir fs (parent p) with
  | Some d =>
      set_dir fs (parent p)
              (Directory (d_readable d) (d_writable d) (d_searchable d)
                         (assoc_set (name p) (Regular f) (d_entries d)))
  | None => fs
  end.

(** [with open(p, 'wb') as s: s.write(data)]: an existing file keeps its
    permissions and its owner and gets the new bytes, a new one belongs to
    the process; [pdf] is how the codec reads the new bytes. *)
Definition store_file (fs : filesystem) (p : Path)
           (data : string) (pdf : outcome (list page_slot)) : outcome filesystem :=
  match lookup_dir fs (parent p) with
  | None => Raise (FileNotFoundError (str p))
  | Some d =>
      if negb (cwd_searchable fs && d_searchable d)
      then Raise (PermissionError (str p))
      else
        match assoc (name p) (d_entries d) with
        | Some (Regular old) =>
            if f_writable old
            then Ok (put_file fs p (File (f_readable old) (f_writable old)
                                         (f_owned old) data pdf))
            else Raise (PermissionError (str p))
        | Some Dangling => Raise (FileNotFoundError (str p))
        | None =>
            if d_writable d
            then Ok (put_file fs p (File (m_read (created_mode fs))
                                         (m_write (created_mode fs))
                                         true data pdf))
            else Raise (PermissionError (str p))
        end
  end.

(** [shutil.copyfile(src, dst)]: [src] is opened for reading, then [dst]
    for writing, then the bytes go over. *)
Definition copyfile (fs : filesystem) (src dst : Path) : outcome filesystem :=
  if path_eqb src dst then Raise (SameFileError (str src) (str dst))
  else
    match lookup_file fs src with
    | None => Raise (resolve_error fs src)
    | Some f =>
        if f_readable f then store_file fs dst (f_data f) (f_pdf f)
        else Raise (PermissionError (str src))
    end.

(** [shutil.copystat(src, dst)]: the times and the permission bits of
    [src] are set on [dst], which only the owner of [dst] may do. *)
Definition copystat (fs : filesystem) (src dst : Path) : outcome filesystem :=
  match lookup_file fs src, lookup_file fs dst with
  | Some f, Some g =>
      if f_owned g
      then Ok (put_file fs dst (File (f_readable f) (f_writable f) true
                                     (f_data g) (f_pdf g)))
      else Raise NotPermittedError
  | None, _ => Raise (resolve_error fs src)
  | _, None => Raise (resolve_error fs dst)
  end.

(** [shutil.copy2(src, dst)] is [copyfile] followed by [copystat]: when
    the second raises, the bytes are in [dst] already. *)
Definition copy2 (fs : filesystem) (src dst : Path) : outcome unit * filesystem :=
  match copyfile fs src dst with
  | Raise e => (Raise e, fs)
  | Ok copied =>
      match copystat copied src dst with
      | Ok fs' => (Ok tt, fs')
      | Raise e => (Raise e, copied)
      end
  end.

(* ================================================================== *)
(** ** Program state *)
(* ================================================================== *)

(** What outlives a function call: the filesystem and the log. *)
Record world : Type := World { w_fs : filesystem; w_log : log }.

(** A Python function body: the mutable locals [L] of its frame and the
    world. *)
Definition Py (L A : Type) : Type := M (L * world) A.

(** [logger.warning(...)], [logger.error(...)] *)
Definition emit {L} (lvl : level) (ev : event) : Py L unit :=
  modify (fun s => (fst s, World (w_fs (snd s)) (w_log (snd s) ++ [(lvl, ev)]))).

(** Mutation of an object held by a local variable. *)
Definition update {L} (f : L -> L) : Py L unit :=
  modify (fun s => (f (fst s), snd s)).

Definition local {L A} (f : L -> A) : Py L A := gets (fun s => f (fst s)).

Definition the_fs {L} : Py L filesystem := gets (fun s => w_fs (snd s)).

Definition set_fs {L} (fs : filesystem) : Py L unit :=
  modify (fun s => (fst s, World fs (w_log (snd s)))).

(** A library call that returns or raises and leaves a filesystem
    behind. *)
Definition act {L A} (f : filesystem -> outcome A * filesystem) : Py L A :=
  fun s =>
    match f (w_fs (snd s)) with
    | (o, fs') => (o, (fst s, World fs' (w_log (snd s))))
    end.

(** A call: the callee runs in a frame of its own, on the caller's world. *)
Definition call {L L' A} (init : L') (c : Py L' A) : Py L A :=
  fun s =>
    match c (init, snd s) with
    | (o, s') => (o, (fst s, snd s'))
    end.

(** What the interpreter, the clock and the working directory give the
    run. *)
Record environment : Type := Environment {
  pypdf2_importable : bool;      (* [import PyPDF2] succeeds *)
  timestamp : string;            (* time.strftime("%Y%m%d_%H%M%S") *)
  debug_log_file : string;       (* os.path.abspath('pdf_merger_debug.log') *)
  debug_log_error : option exn   (* what refuses that file to a writer that
                                    has reached it, if anything *)
}.

(* ================================================================== *)
(** ** [setup_logging], [check_system_requirements],
       [validate_directories] *)
(* ================================================================== *)

(** [open(os.path.abspath('pdf_merger_debug.log'), 'a')], which
    [logging.FileHandler] performs when it is made: the working directory
    must be searchable, and the file must accept a writer. *)
Definition open_debug_log (env : environment) (fs : filesystem) : outcome unit :=
  if cwd_searchable fs then
    match debug_log_error env with
    | None => Ok tt
    | Some e => Raise e
    end
  else Raise (PermissionError (debug_log_file env)).

Definition debug_log_opens (env : environment) (fs : filesystem) : bool :=
  is_ok (open_debug_log env fs).

Definition setup_logging {L} (env : environment) : Py L unit :=
  fs <- the_fs ;;
  lift (open_debug_log env fs).

(** Line 12 of the module imports PyPDF2 already, so in a run started from
    the module the import below finds it; the branch is the source's. *)
Definition check_system_requirements {L} (env : environment) : Py L bool :=
  if pypdf2_importable env then ret true
  else emit ERROR PyPDF2NotInstalled ;; ret false.

(** The loop [for directory in [input_dir, output_dir]]; [false] is the
    [return False] of its exception handler.  [directory.exists()] stands
    outside the [try]. *)
Fixpoint create_missing {L} (directories : list string) : Py L bool :=
  match directories with
  | [] => ret true
  | directory :: rest =>
      fs <- the_fs ;;
      there <- lift (Path_exists_dir fs directory) ;;
      if negb there then
        match mkdir fs directory with
        | Ok fs' => set_fs fs' ;; create_missing rest
        | Raise e => emit ERROR (MkdirFailed directory e) ;; ret false
        end
      else create_missing rest
  end.

Definition validate_directories {L} (input_dir output_dir : string) : Py L bool :=
  created <- create_missing [input_dir; output_dir] ;;
  if negb created then ret false
  else
    fs <- the_fs ;;
    if negb (dir_access_R fs input_dir) then
      emit ERROR (NoReadPermissionDir input_dir) ;; ret false
    else if negb (dir_access_W fs output_dir) then
      emit ERROR (NoWritePermissionDir output_dir) ;; ret false
    else ret true.

(* ================================================================== *)
(** ** [find_and_validate_pdf_files] *)
(* ================================================================== *)

(** The body of [for pdf_file in pdf_files]; the local of the frame is
    the list [valid_files].  Every [continue] is the end of a branch.
    [pdf_file.exists()] and [pdf_file.stat()] stand outside the [try]. *)
Definition validate_file (fs : filesystem) (pdf_file : Path) : Py (list Path) unit :=
  there <- lift (Path_exists fs pdf_file) ;;
  if negb there then
    emit WARNING (FileDoesNotExist (name pdf_file))
  else if negb (access_R fs pdf_file) then
    emit WARNING (NoReadPermissionFile (name pdf_file))
  else
    file_size <- lift (stat_size fs pdf_file) ;;
    if (file_size =? 0)%nat then
      emit WARNING (FileIsEmpty (name pdf_file))
    else
      try_except
        (reader <- lift (PdfReader fs pdf_file) ;;
         let page_count := length reader in
         if (page_count =? 0)%nat then
           emit WARNING (PdfHasNoPages (name pdf_file))
         else
           update (fun valid_files => valid_files ++ [pdf_file]))
        (fun e => emit WARNING (InvalidPdfFile (name pdf_file) e)).

Definition find_and_validate_pdf_files (input_dir : string) : Py (list Path) (list Path) :=
  fs <- the_fs ;;
  pdf_files <- lift (Path_glob fs input_dir ".pdf") ;;
  match pdf_files with
  | [] =>
      emit WARNING NoPdfFilesFound ;;
      all_files <- lift (Path_glob fs input_dir "") ;;
      ret []
  | _ =>
      for_each pdf_files (validate_file fs) ;;
      local (fun valid_files => valid_files)
  end.

(* ================================================================== *)
(** ** [sort_files_by_preference] *)
(* ================================================================== *)

(** [c.lower()] for a code point below 256: the letters A to Z, and the
    letters from U+00C0 to U+00DE except the sign U+00D7, have their
    lower-case letter 32 further; every other code point below 256 is
    left as it is. *)
Definition lower_char (c : ascii) : ascii :=
  let n := nat_of_ascii c in
  if ((65 <=? n) && (n <=? 90) ||
      (192 <=? n) && (n <=? 214) ||
      (216 <=? n) && (n <=? 222))%nat
  then ascii_of_nat (n + 32) else c.

(** [s.lower()] *)
Fixpoint lower (s : string) : string :=
  match s with
  | EmptyString => EmptyString
  | String c s' => String (lower_char c) (lower s')
  end.

(** Insert [x] in front of the first element whose key is not below its
    own: in front of the elements with an equal key. *)
Fixpoint insert_by {A} (key : A -> string) (x : A) (l : list A) : list A :=
  match l with
  | [] => [x]
  | y :: rest =>
      if String.leb (key x) (key y) then x :: y :: rest
      else y :: insert_by key x rest
  end.

(** [sorted(l, key=key)]: Python's sort is stable and compares keys
    with [<] on [str]. Elements are inserted from the last to the first. *)
Definition sorted {A} (key : A -> string) (l : list A) : list A :=
  fold_right (insert_by key) [] l.

Definition sort_files_by_preference (pdf_files : list Path) : list Path :=
  sorted (fun x => lower (name x)) pdf_files.

(* ================================================================== *)
(** ** [merge_pdf_files] *)
(* ================================================================== *)

(** An element of [file_info]. *)
Record file_entry : Type := FileEntry {
  filename : string;
  pages : nat;
  file_size : nat
}.

(** The dictionary returned by [merge_pdf_files]. *)
Inductive merge_result : Type :=
| Success (output_file : string) (total_pages total_files output_size : nat)
          (file_info : list file_entry)
| Failure (error : string) (error_type : option string).

Definition success (r : merge_result) : bool :=
  match r with Success _ _ _ _ _ => true | Failure _ _ => false end.

(** The mutable locals of [merge_pdf_files]. *)
Record merge_locals : Type := MergeLocals {
  writer : list page;             (* the pages of the PdfWriter *)
  total_pages : nat;
  file_info : list file_entry
}.

Definition add_page (p : page) (l : merge_locals) : merge_locals :=
  MergeLocals (writer l ++ [p]) (total_pages l) (file_info l).

Definition add_total (n : nat) (l : merge_locals) : merge_locals :=
  MergeLocals (writer l) (total_pages l + n) (file_info l).

Definition append_info (e : file_entry) (l : merge_locals) : merge_locals :=
  MergeLocals (writer l) (total_pages l) (file_info l ++ [e]).

(** The body of [for i, pdf_file in enumerate(pdf_files, 1)]. *)
Definition process_file (fs : filesystem) (pdf_file : Path) : Py merge_locals unit :=
  try_except
    (reader <- lift (PdfReader fs pdf_file) ;;
     let page_count := length reader in
     for_each reader
       (fun slot => page <- lift slot ;; update (add_page page)) ;;
     update (add_total page_count) ;;
     st_size <- lift (stat_size fs pdf_file) ;;
     update (append_info (FileEntry (name pdf_file) page_count st_size)))
    (fun e => emit ERROR (FailedToProcess (name pdf_file) e)).

(* ================================================================== *)
(** ** [get_output_filename], [print_merge_summary], [merge_pdfs] *)
(* ================================================================== *)

Definition get_output_filename (env : environment) (input_dir : string) : string :=
  "merged_pdf_" ++ timestamp env ++ ".pdf".

(** [print_merge_summary]: only its ERROR records are kept. *)
Definition print_merge_summary {L} (result : merge_result) : Py L unit :=
  match result with
  | Success _ _ _ _ _ => ret tt
  | Failure error _ =>
      emit ERROR SummaryStatusFailed ;;
      emit ERROR (SummaryError error)
  end.

(** Which [return] of [merge_pdfs] ended the run. *)
Inductive run_exit : Type :=
| ExitRequirements
| ExitDirectories
| ExitNoValidFiles
| ExitSingleFile
| ExitMerged (result : merge_result).

Definition index0 {A} (l : list A) : outcome A :=
  match l with
  | x :: _ => Ok x
  | [] => Raise (Exn "IndexError" "list index out of range")
  end.

Section MergeEngine.

(** [with open(output_file, 'wb') as s: writer.write(s)]: returns or
    raises, and leaves a filesystem behind. *)
Variable write_pdf : filesystem -> Path -> list page -> outcome unit * filesystem.

Definition write_output (output_file : Path) : Py merge_locals unit :=
  fun s =>
    match write_pdf (w_fs (snd s)) output_file (writer (fst s)) with
    | (o, fs') => (o, (fst s, World fs' (w_log (snd s))))
    end.

(** [output_file.exists()] follows the [open(output_file, 'wb')] of the
    statement before it, which has gone through the directory of the
    destination: here the method answers whether the destination
    resolves. *)
Definition merge_pdf_files (pdf_files : list Path) (output_file : Path)
  : Py merge_locals merge_result :=
  try_except
    (fs <- the_fs ;;
     for_each pdf_files (process_file fs) ;;
     write_output output_file ;;
     fs' <- the_fs ;;
     if path_exists fs' output_file then
       output_size <- lift (stat_size fs' output_file) ;;
       total <- local total_pages ;;
       info <- local file_info ;;
       ret (Success (name output_file) total (length pdf_files) output_size info)
     else
       emit ERROR OutputFileNotFound ;;
       ret (Failure "Output file not created" None))
    (fun e =>
       emit ERROR (MergeFailed e) ;;
       ret (Failure (exn_msg e) (Some (exn_type e)))).

Definition merge_pdfs (env : environment) : Py unit run_exit :=
  setup_logging env ;;
  ok <- check_system_requirements env ;;
  if negb ok then emit ERROR RequirementsNotMet ;; ret ExitRequirements
  else
    let input_dir := "input" in
    let output_dir := "output" in
    ok <- validate_directories input_dir output_dir ;;
    if negb ok then emit ERROR DirectoryValidationFailed ;; ret ExitDirectories
    else
      pdf_files <- call [] (find_and_validate_pdf_files input_dir) ;;
      match pdf_files with
      | [] => emit ERROR NoValidPdfFiles ;; ret ExitNoValidFiles
      | _ =>
          if (length pdf_files <? 2)%nat then
            emit WARNING OnlyOnePdfFile ;;
            single_file <- lift (index0 pdf_files) ;;
            let output_file := joinpath output_dir (name single_file) in
            try_except
              (act (fun fs => copy2 fs single_file output_file))
              (fun e => emit ERROR (FailedToCopy e)) ;;
            ret ExitSingleFile
          else
            let sorted_files := sort_files_by_preference pdf_files in
            let output_filename := get_output_filename env input_dir in
            let output_file := joinpath output_dir output_filename in
            result <- call (MergeLocals [] 0 [])
                           (merge_pdf_files sorted_files output_file) ;;
            print_merge_summary result ;;
            ret (ExitMerged result)
      end.

End MergeEngine.

(* ================================================================== *)
(** ** Two ways the write can behave, used in the examples *)
(* ================================================================== *)

(** A serializer for the examples: a header and the page contents. *)
Definition serialize (ps : list page) : string :=
  "%PDF" ++ String.concat "" (map page_content ps).

(** The write an ordinary filesystem performs: the destination is created
    or truncated if permissions allow it and then holds the document. *)
Definition posix_write (fs : filesystem) (output_file : Path) (ps : list page)
  : outcome unit * filesystem :=
  match store_file fs output_file (serialize ps) (Ok (map Ok ps)) with
  | Ok fs' => (Ok tt, fs')
  | Raise e => (Raise e, fs)
  end.

(** A write that returns normally and leaves nothing behind. *)
Definition lost_write (fs : filesystem) (output_file : Path) (ps : list page)
  : outcome unit * filesystem :=
  (Ok tt, fs).

(* ================================================================== *)
(** ** Vocabulary of the specification *)
(* ================================================================== *)

(** The exception of the first page slot that raises, if any. *)
Fixpoint first_error (slots : list page_slot) : option exn :=
  match slots with
  | [] => None
  | Ok _ :: rest => first_error rest
  | Raise e :: _ => Some e
  end.

(** The pages in front of the first slot that raises. *)
Fixpoint good_prefix (slots : list page_slot) : list page :=
  match slots with
  | [] => []
  | Ok p :: rest => p :: good_prefix rest
  | Raise _ :: _ => []
  end.

(** Why a document fails during the merge pass: it does not open, or one
    of its pages cannot be appended. *)
Definition merge_failure (fs : filesystem) (p : Path) : option exn :=
  match PdfReader fs p with
  | Raise e => Some e
  | Ok slots => first_error slots
  end.

Definition merges_ok (fs : filesystem) (p : Path) : bool :=
  match merge_failure fs p with None => true | Some _ => false end.

(** The pages of a document that reach the writer. *)
Definition pages_taken (fs : filesystem) (p : Path) : list page :=
  match PdfReader fs p with
  | Raise _ => []
  | Ok slots => good_prefix slots
  end.

(** [len(reader.pages)] of a document that opens. *)
Definition page_count (fs : filesystem) (p : Path) : nat :=
  match PdfReader fs p with
  | Raise _ => 0
  | Ok slots => length slots
  end.

Definition byte_size (fs : filesystem) (p : Path) : nat :=
  match lookup_file fs p with
  | Some f => String.length (f_data f)
  | None => 0
  end.

Definition entry_of (fs : filesystem) (p : Path) : file_entry :=
  FileEntry (name p) (page_count fs p) (byte_size fs p).

Definition sum_list (l : list nat) : nat := fold_right Nat.add 0 l.

(** The ERROR record a document that fails leaves in the log. *)
Definition failure_records (fs : filesystem) (p : Path) : log :=
  match merge_failure fs p with
  | Some e => [(ERROR, FailedToProcess (name p) e)]
  | None => []
  end.

Definition fresh_locals : merge_locals := MergeLocals [] 0 [].

(** What the loop of [merge_pdf_files] leaves in [writer], [total_pages]
    and [file_info], said without running it. *)
Definition accumulated (fs : filesystem) (pdf_files : list Path) : list page :=
  flat_map (pages_taken fs) pdf_files.

Definition counted (fs : filesystem) (pdf_files : list Path) : nat :=
  sum_list (map (page_count fs) (filter (merges_ok fs) pdf_files)).

Definition recorded (fs : filesystem) (pdf_files : list Path) : list file_entry :=
  map (entry_of fs) (filter (merges_ok fs) pdf_files).

(** The pages left in the writer by documents that failed. *)
Definition stray_pages (fs : filesystem) (pdf_files : list Path) : nat :=
  sum_list (map (fun p => length (pages_taken fs p))
                (filter (fun p => negb (merges_ok fs p)) pdf_files)).

(** A document as stored: its page slots in their order, none when it
    does not open. *)
Definition document (fs : filesystem) (p : Path) : list page_slot :=
  match PdfReader fs p with
  | Ok slots => slots
  | Raise _ => []
  end.

(** The five validation predicates of the File Discoverer, in the order
    of the specification. *)
Inductive predicate : Type :=
| Exists | Readable | NonEmpty | Opens | HasPages.

Definition predicates : list predicate :=
  [Exists; Readable; NonEmpty; Opens; HasPages].

(** What a candidate that fails a predicate is reported with; nothing
    when the predicate holds. *)
Definition complaint (fs : filesystem) (p : Path) (q : predicate) : option event :=
  match q with
  | Exists =>
      if path_exists fs p then None else Some (FileDoesNotExist (name p))
  | Readable =>
      if access_R fs p then None else Some (NoReadPermissionFile (name p))
  | NonEmpty =>
      if (byte_size fs p =? 0)%nat then Some (FileIsEmpty (name p)) else None
  | Opens =>
      match PdfReader fs p with
      | Ok _ => None
      | Raise e => Some (InvalidPdfFile (name p) e)
      end
  | HasPages =>
      if (1 <=? page_count fs p)%nat then None else Some (PdfHasNoPages (name p))
  end.

Definition holds (fs : filesystem) (p : Path) (q : predicate) : bool :=
  match complaint fs p q with None => true | Some _ => false end.

(** The first of the predicates [qs], in their order, that a candidate
    fails, with its complaint. *)
Fixpoint first_failure_among (fs : filesystem) (p : Path) (qs : list predicate)
  : option (predicate * event) :=
  match qs with
  | [] => None
  | q :: rest =>
      match complaint fs p q with
      | Some ev => Some (q, ev)
      | None => first_failure_among fs p rest
      end
  end.

Definition first_failure (fs : filesystem) (p : Path) : option (predicate * event) :=
  first_failure_among fs p predicates.

Definition is_valid (fs : filesystem) (p : Path) : bool :=
  forallb (holds fs p) predicates.

(** One WARNING for a candidate that fails, none for one that passes. *)
Definition rejections (fs : filesystem) (p : Path) : log :=
  match first_failure fs p with
  | Some (_, ev) => [(WARNING, ev)]
  | None => []
  end.

(** The warnings discovery writes for the candidates of a directory. *)
Definition discovery_warnings (fs : filesystem) (d : string) : log :=
  match glob_pdf fs d with
  | [] => [(WARNING, NoPdfFilesFound)]
  | candidates => flat_map (rejections fs) candidates
  end.

(** The exception that ends discovery, if any: the one of [glob] when the
    working directory cannot be searched, the one of [exists()] on the
    first candidate when the directory can be listed and not searched. *)
Definition discovery_error (fs : filesystem) (d : string) : option exn :=
  if negb (cwd_searchable fs) then Some (PermissionError d)
  else match glob_pdf fs d with
       | [] => None
       | candidate :: _ =>
           if dir_searchable fs d then None
           else Some (PermissionError (str candidate))
       end.

(** A missing directory can be created when the working directory is
    writable. *)
Definition creatable (fs : filesystem) (d : string) : bool :=
  dir_exists fs d || cwd_writable fs.

(** The permission the run finds on a directory: the one it has if it
    exists, the one [mkdir] gives it if it can be created. *)
Definition usable (perm : directory -> bool) (fs : filesystem) (d : string) : bool :=
  match lookup_dir fs d with
  | Some x => perm x
  | None => cwd_writable fs && perm (fresh_directory fs)
  end.

(** Ascending order of keys, and the elements carrying one key. *)
Definition key_le {A} (key : A -> string) (x y : A) : Prop :=
  String.leb (key x) (key y) = true.

Definition has_key {A} (key : A -> string) (k : string) (x : A) : bool :=
  String.eqb (key x) k.

Definition name_key (x : Path) : string := lower (name x).

(** Ascending order of the entries of [file_info] by lower-cased
    filename. *)
Definition entry_le (e1 e2 : file_entry) : Prop :=
  String.leb (lower (filename e1)) (lower (filename e2)) = true.

(** Running a function body from a given frame and world. *)
Definition run {L A} (c : Py L A) (l : L) (w : world) : outcome A * (L * world) :=
  c (l, w).

Definition result_of {L A} (r : outcome A * (L * world)) : outcome A := fst r.
Definition locals_of {L A} (r : outcome A * (L * world)) : L := fst (snd r).
Definition fs_of {L A} (r : outcome A * (L * world)) : filesystem := w_fs (snd (snd r)).
Definition log_of {L A} (r : outcome A * (L * world)) : log := w_log (snd (snd r)).

(* ================================================================== *)
(** ** Example filesystems *)
(* ================================================================== *)

Definition good (s : string) : page_slot := Ok (Page s).
Definition damaged : page_slot := Raise (Exn "PdfReadError" "damaged page object").

Definition pdf (data : string) (slots : list page_slot) : file :=
  File true true true data (Ok slots).

Definition a_pdf : file := pdf "%PDF-a" [good "a1"; good "a2"].
Definition B_pdf : file := pdf "%PDF-B" [good "B1"].
Definition C_pdf : file := pdf "%PDF-C" [good "C1"; good "C2"; good "C3"].
(** Opens and counts three pages; the second cannot be appended. *)
Definition torn_pdf : file := pdf "%PDF-t" [good "t1"; damaged; good "t3"].
(** Opens and counts two pages; the first cannot be appended. *)
Definition headless_pdf : file := pdf "%PDF-h" [damaged; good "h2"].
Definition zero_pdf : file := pdf "%PDF-z" [].
Definition empty_pdf : file := pdf "" [good "e1"].
Definition junk_pdf : file :=
  File true true true "junk" (Raise (Exn "PdfReadError" "EOF marker not found")).
Definition locked_pdf : file := File false true true "%PDF-l" (Ok [good "l1"]).
(** A file [output/a.pdf] that is there already and is read-only. *)
Definition stale_copy : file := File true false true "older bytes" (Ok [good "old"]).
(** A file [output/a.pdf] that is there already, writable for the process
    and owned by someone else. *)
Definition foreign_copy : file := File true true false "older bytes" (Ok [good "old"]).

Definition rwx : mode := Mode true true true.

(** Entries that are all regular files. *)
Definition files (entries : list (string * file)) : list (string * node) :=
  map (fun e => (fst e, Regular (snd e))) entries.

(** Every permission everywhere. *)
Definition disk (input_entries output_entries : list (string * file)) : filesystem :=
  Filesystem true true rwx
    [("input", Directory true true true (files input_entries));
     ("output", Directory true true true (files output_entries))].

(** The directory [input] with the permissions [r], [w], [x] and the
    entries given, beside an empty [output]. *)
Definition disk_with (r w x : bool) (input_entries : list (string * node)) : filesystem :=
  Filesystem true true rwx
    [("input", Directory r w x input_entries);
     ("output", Directory true true true [])].

(** [output_dir / get_output_filename(input_dir)] *)
Definition output_path (env : environment) : Path :=
  joinpath "output" (get_output_filename env "input").

Definition clock : environment :=
  Environment true "20240101_120000" "/srv/merger/pdf_merger_debug.log" None.
Definition start (fs : filesystem) : world := World fs [].

(* ================================================================== *)
(** * Properties *)
(* ================================================================== *)

Ltac py :=
  unfold emit, update, local, the_fs, set_fs;
  unfold bind, ret, lift, gets, modify, try_except;
  cbv beta iota; cbn [fst snd negb w_fs w_log].

(** ** One document *)

Lemma opened_file_has_size fs p slots :
  PdfReader fs p = Ok slots -> stat_size fs p = Ok (byte_size fs p).
Proof.
  unfold PdfReader, stat_size, byte_size.
  destruct (lookup_file fs p); [reflexivity | discriminate].
Qed.

Lemma append_pages_run (slots : list page_slot) (l : merge_locals) (w : world) :
  for_each slots (fun slot => page <- lift slot ;; update (add_page page)) (l, w) =
  (match first_error slots with None => Ok tt | Some e => Raise e end,
   (MergeLocals (writer l ++ good_prefix slots) (total_pages l) (file_info l), w)).
Proof.
  revert l. induction slots as [|[pg|e] rest IH]; intros l; simpl.
  - rewrite app_nil_r. destruct l; reflexivity.
  - unfold bind at 1. simpl.
    change (for_each rest _ (add_page pg (fst (l, w)), snd (l, w)))
      with (for_each rest (fun slot => page <- lift slot ;; update (add_page page))
                     (add_page pg l, w)).
    rewrite IH. simpl. rewrite <- app_assoc. reflexivity.
  - unfold bind. simpl. rewrite app_nil_r. destruct l; reflexivity.
Qed.

(** The locals and the world one document leaves behind. *)
Lemma process_file_run fs p l w :
  process_file fs p (l, w) =
  (Ok tt,
   (MergeLocals
      (writer l ++ pages_taken fs p)
      (total_pages l + (if merges_ok fs p then page_count fs p else 0))
      (file_info l ++ (if merges_ok fs p then [entry_of fs p] else [])),
    World (w_fs w) (w_log w ++ failure_records fs p))).
Proof.
  unfold process_file, try_except, merges_ok, failure_records, merge_failure,
    pages_taken, page_count, entry_of.
  destruct (PdfReader fs p) as [slots|e] eqn:Hopen.
  - unfold bind at 1. unfold lift at 1.
    unfold bind at 1. rewrite append_pages_run.
    destruct (first_error slots) as [e|]; simpl.
    + rewrite Nat.add_0_r, app_nil_r. reflexivity.
    + unfold bind, lift. rewrite (opened_file_has_size _ _ _ Hopen). simpl.
      unfold page_count. rewrite Hopen. rewrite app_nil_r.
      destruct w; reflexivity.
  - unfold bind, lift. simpl.
    rewrite Nat.add_0_r, !app_nil_r. destruct l; reflexivity.
Qed.

Lemma loop_run fs pdf_files l w :
  for_each pdf_files (process_file fs) (l, w) =
  (Ok tt,
   (MergeLocals
      (writer l ++ flat_map (pages_taken fs) pdf_files)
      (total_pages l + sum_list (map (page_count fs) (filter (merges_ok fs) pdf_files)))
      (file_info l ++ map (entry_of fs) (filter (merges_ok fs) pdf_files)),
    World (w_fs w) (w_log w ++ flat_map (failure_records fs) pdf_files))).
Proof.
  revert l w. induction pdf_files as [|p rest IH]; intros l w; simpl.
  - rewrite Nat.add_0_r, !app_nil_r. destruct l, w; reflexivity.
  - unfold bind. rewrite process_file_run. rewrite IH. simpl.
    rewrite <- !app_assoc.
    destruct (merges_ok fs p); simpl;
      rewrite <- ?app_assoc, ?Nat.add_0_r, ?Nat.add_assoc, ?app_nil_r; reflexivity.
Qed.

Lemma existing_file_has_size fs p :
  path_exists fs p = true -> stat_size fs p = Ok (byte_size fs p).
Proof.
  unfold path_exists, stat_size, byte_size.
  destruct (lookup_file fs p); [reflexivity | discriminate].
Qed.

Lemma merge_pdf_files_run write_pdf pdf_files output_file w :
  run (merge_pdf_files write_pdf pdf_files output_file) fresh_locals w =
  let fs := w_fs w in
  let l := MergeLocals (accumulated fs pdf_files) (counted fs pdf_files)
                       (recorded fs pdf_files) in
  let lg := w_log w ++ flat_map (failure_records fs) pdf_files in
  match write_pdf fs output_file (accumulated fs pdf_files) with
  | (Raise e, fs') =>
      (Ok (Failure (exn_msg e) (Some (exn_type e))),
       (l, World fs' (lg ++ [(ERROR, MergeFailed e)])))
  | (Ok _, fs') =>
      if path_exists fs' output_file then
        (Ok (Success (name output_file) (counted fs pdf_files) (length pdf_files)
                     (byte_size fs' output_file) (recorded fs pdf_files)),
         (l, World fs' lg))
      else
        (Ok (Failure "Output file not created" None),
         (l, World fs' (lg ++ [(ERROR, OutputFileNotFound)])))
  end.
Proof.
  unfold run, merge_pdf_files, try_except.
  unfold bind at 1. unfold the_fs at 1, gets at 1.
  unfold bind at 1. simpl fst; simpl snd.
  rewrite loop_run. simpl writer; simpl total_pages; simpl file_info.
  unfold bind at 1, write_output. simpl fst; simpl snd. simpl writer. simpl w_fs.
  fold (accumulated (w_fs w) pdf_files).
  destruct (write_pdf (w_fs w) output_file (accumulated (w_fs w) pdf_files))
    as [[[]|e] fs'].
  - unfold bind at 1, the_fs, gets. simpl.
    destruct (path_exists fs' output_file) eqn:Hex.
    + unfold bind, lift. rewrite (existing_file_has_size _ _ Hex). reflexivity.
    + reflexivity.
  - reflexivity.
Qed.

(** ** Discovery *)

Lemma validate_file_run fs p valid_files w :
  can_search fs (parent p) = true ->
  validate_file fs p (valid_files, w) =
  (Ok tt,
   (valid_files ++ (if is_valid fs p then [p] else []),
    World (w_fs w) (w_log w ++ rejections fs p))).
Proof.
  intros Hsearch.
  unfold validate_file, rejections, first_failure, is_valid, predicates.
  unfold first_failure_among, forallb, holds, complaint.
  unfold Path_exists. rewrite Hsearch. unfold bind at 1, lift at 1.
  unfold path_exists, access_R, byte_size, page_count, PdfReader, stat_size,
    try_except.
  destruct (lookup_file fs p) as [f|]; simpl; [|rewrite app_nil_r; reflexivity].
  destruct (f_readable f); simpl; [|rewrite app_nil_r; reflexivity].
  unfold bind at 1, lift at 1.
  destruct (String.length (f_data f)) as [|n] eqn:Hlen; simpl;
    [rewrite app_nil_r; reflexivity|].
  destruct (f_pdf f) as [[|slot slots]|e]; simpl;
    rewrite ?app_nil_r; try reflexivity.
  destruct w; reflexivity.
Qed.

Lemma validate_file_raises fs p valid_files w :
  can_search fs (parent p) = false ->
  validate_file fs p (valid_files, w)
  = (Raise (PermissionError (str p)), (valid_files, w)).
Proof.
  intros Hsearch. unfold validate_file, Path_exists. rewrite Hsearch. reflexivity.
Qed.

Lemma validate_loop_run fs candidates valid_files w :
  (forall p, In p candidates -> can_search fs (parent p) = true) ->
  for_each candidates (validate_file fs) (valid_files, w) =
  (Ok tt,
   (valid_files ++ filter (is_valid fs) candidates,
    World (w_fs w) (w_log w ++ flat_map (rejections fs) candidates))).
Proof.
  revert valid_files w.
  induction candidates as [|p rest IH]; intros valid_files w Hsearch; simpl.
  - rewrite !app_nil_r. destruct w; reflexivity.
  - unfold bind. rewrite validate_file_run by (apply Hsearch; left; reflexivity).
    rewrite IH by (intros q Hq; apply Hsearch; right; exact Hq). simpl.
    rewrite <- !app_assoc.
    destruct (is_valid fs p); reflexivity.
Qed.

Lemma glob_parent fs d suffix p : In p (glob fs d suffix) -> parent p = d.
Proof.
  unfold glob. intros H. apply in_map_iff in H.
  destruct H as (e & <- & _). reflexivity.
Qed.

(** What discovery returns or raises, and what it leaves. *)
Lemma find_and_validate_run d w :
  run (find_and_validate_pdf_files d) [] w =
  let fs := w_fs w in
  let valid := filter (is_valid fs) (glob_pdf fs d) in
  match discovery_error fs d with
  | Some e => (Raise e, ([], w))
  | None => (Ok valid, (valid, World fs (w_log w ++ discovery_warnings fs d)))
  end.
Proof.
  unfold run, find_and_validate_pdf_files, discovery_warnings, discovery_error.
  unfold bind at 1, the_fs, gets. cbv beta iota delta [fst snd].
  unfold Path_glob. fold (glob_pdf (w_fs w) d).
  destruct (cwd_searchable (w_fs w)) eqn:Hcwd; [|reflexivity].
  cbn [negb]. unfold bind at 1, lift at 1.
  destruct (glob_pdf (w_fs w) d) as [|c cs] eqn:Hglob.
  - reflexivity.
  - assert (Hpar : forall p, In p (c :: cs) -> parent p = d).
    { intros p Hp. rewrite <- Hglob in Hp. apply (glob_parent _ _ _ _ Hp). }
    destruct (dir_searchable (w_fs w) d) eqn:Hdir.
    + unfold bind. rewrite validate_loop_run; [reflexivity|].
      intros p Hp. unfold can_search. rewrite (Hpar p Hp), Hcwd, Hdir. reflexivity.
    + change (for_each (c :: cs) (validate_file (w_fs w)))
        with (validate_file (w_fs w) c ;; for_each cs (validate_file (w_fs w))).
      unfold bind. rewrite validate_file_raises; [reflexivity|].
      unfold can_search. rewrite (Hpar c (or_introl eq_refl)), Hcwd, Hdir. reflexivity.
Qed.

(** ** Directories *)

Lemma assoc_set_same {A} k (v : A) l : assoc k (assoc_set k v l) = Some v.
Proof.
  induction l as [|[k' v'] rest IH]; simpl.
  - rewrite String.eqb_refl. reflexivity.
  - destruct (String.eqb k k') eqn:E; simpl.
    + rewrite String.eqb_refl. reflexivity.
    + rewrite E. exact IH.
Qed.

Lemma assoc_set_other {A} k k' (v : A) l :
  k <> k' -> assoc k' (assoc_set k v l) = assoc k' l.
Proof.
  intros Hne. induction l as [|[k0 v0] rest IH]; simpl.
  - destruct (String.eqb_spec k' k); [congruence | reflexivity].
  - destruct (String.eqb_spec k k0) as [->|Hk]; simpl.
    + destruct (String.eqb_spec k' k0); [congruence | reflexivity].
    + destruct (String.eqb_spec k' k0); [reflexivity | exact IH].
Qed.

Lemma mkdir_lookup fs d fs' d' :
  dir_exists fs d = false -> mkdir fs d = Ok fs' ->
  cwd_writable fs = true
  /\ cwd_searchable fs' = cwd_searchable fs
  /\ cwd_writable fs' = cwd_writable fs
  /\ created_mode fs' = created_mode fs
  /\ lookup_dir fs' d' = if String.eqb d d' then Some (fresh_directory fs)
                         else lookup_dir fs d'.
Proof.
  unfold mkdir, lookup_dir. intros Hmiss. rewrite Hmiss.
  destruct (cwd_searchable fs) eqn:Hsearch; [|discriminate].
  destruct (cwd_writable fs) eqn:Hcwd; [|discriminate].
  intros H. inversion H; subst; clear H. simpl.
  split; [reflexivity|]. split; [auto|]. split; [auto|]. split; [reflexivity|].
  destruct (String.eqb_spec d d') as [->|Hne].
  - apply assoc_set_same.
  - apply assoc_set_other. exact Hne.
Qed.

Lemma all_creatable fs directories :
  cwd_writable fs = true -> forallb (creatable fs) directories = true.
Proof.
  intros H. induction directories as [|d rest IH]; simpl; [reflexivity|].
  unfold creatable at 1. rewrite H, orb_true_r. exact IH.
Qed.

(** With a working directory that cannot be searched, the first
    [directory.exists()] raises and nothing has happened. *)
Lemma create_missing_raises {L} d rest (l : L) w :
  cwd_searchable (w_fs w) = false ->
  create_missing (d :: rest) (l, w) = (Raise (PermissionError d), (l, w)).
Proof.
  intros Hs. cbn [create_missing]. py. unfold Path_exists_dir. rewrite Hs.
  reflexivity.
Qed.

(** What the creation loop leaves: directories that were there are as
    they were, a new one is empty with the permissions of a created
    directory, and the loop says yes exactly when every directory was
    there or could be made. *)
Lemma create_missing_spec {L} directories (l : L) w :
  cwd_searchable (w_fs w) = true ->
  exists b w',
    create_missing directories (l, w) = (Ok b, (l, w'))
    /\ (b = true <-> forallb (creatable (w_fs w)) directories = true)
    /\ (forall d x, lookup_dir (w_fs w) d = Some x -> lookup_dir (w_fs w') d = Some x)
    /\ (forall d, lookup_dir (w_fs w) d = None ->
                  lookup_dir (w_fs w') d = None
                  \/ (In d directories /\ cwd_writable (w_fs w) = true /\
                      lookup_dir (w_fs w') d = Some (fresh_directory (w_fs w))))
    /\ (b = true -> forall d, In d directories -> dir_exists (w_fs w') d = true)
    /\ (forallb (dir_exists (w_fs w)) directories = true -> w' = w)
    /\ (exists lg, w_log w' = w_log w ++ lg)
    /\ cwd_searchable (w_fs w') = true
    /\ cwd_writable (w_fs w') = cwd_writable (w_fs w)
    /\ created_mode (w_fs w') = created_mode (w_fs w).
Proof.
  revert w. induction directories as [|d rest IH]; intros w Hs; cbn [create_missing].
  - exists true, w. split; [reflexivity|]. split; [simpl; tauto|].
    split; [auto|]. split; [auto|]. split; [intros _ d []|].
    split; [reflexivity|]. split; [exists []; symmetry; apply app_nil_r|].
    auto.
  - py. unfold Path_exists_dir. rewrite Hs. cbv beta iota.
    unfold creatable at 1. cbn [forallb].
    destruct (dir_exists (w_fs w) d) eqn:Hex; py.
    + destruct (IH w Hs)
        as (b & w' & Hrun & Hb & Hold & Hnew & Hall & Hsame & Hlog & Hinv).
      exists b, w'. split; [exact Hrun|]. split; [exact Hb|].
      split; [exact Hold|]. split.
      { intros d' Hnone. destruct (Hnew d' Hnone) as [H|(Hin & Hrest)]; [left; exact H|].
        right. split; [right; exact Hin | exact Hrest]. }
      split.
      { intros Hbt d' [<-|Hin]; [|apply Hall; assumption].
        unfold dir_exists in *. destruct (lookup_dir (w_fs w) d) as [x|] eqn:Hd;
          [|discriminate]. rewrite (Hold _ _ Hd). reflexivity. }
      split; [exact Hsame|]. split; [exact Hlog | exact Hinv].
    + destruct (mkdir (w_fs w) d) as [fs'|e] eqn:Hmk; py.
      * destruct (mkdir_lookup _ _ _ d Hex Hmk) as (Hcwd & Hs' & Hw' & Hm' & _).
        assert (Hlk : forall d', lookup_dir fs' d' =
                        if String.eqb d d' then Some (fresh_directory (w_fs w))
                        else lookup_dir (w_fs w) d')
          by (intros d'; apply (mkdir_lookup _ _ _ d' Hex Hmk)).
        assert (Hmissing : lookup_dir (w_fs w) d = None).
        { unfold dir_exists in Hex.
          destruct (lookup_dir (w_fs w) d); [discriminate|reflexivity]. }
        assert (Hfresh : fresh_directory fs' = fresh_directory (w_fs w))
          by (unfold fresh_directory; rewrite Hm'; reflexivity).
        rewrite Hs in Hs'. rewrite Hcwd in Hw'.
        destruct (IH (World fs' (w_log w)) Hs')
          as (b & w' & Hrun & Hb & Hold & Hnew & Hall & Hsame & Hlog & Hs2 & Hw2 & Hm2).
        cbn [w_fs w_log] in *.
        exists b, w'. split; [exact Hrun|]. split.
        { rewrite Hb.
          change (fun d0 : string => dir_exists (w_fs w) d0 || cwd_writable (w_fs w))
            with (creatable (w_fs w)).
          rewrite (all_creatable fs' rest Hw'), (all_creatable (w_fs w) rest Hcwd), Hcwd.
          simpl. tauto. }
        split.
        { intros d' x Hd'. apply Hold. rewrite Hlk.
          destruct (String.eqb_spec d d') as [->|]; [congruence | exact Hd']. }
        split.
        { intros d' Hnone. destruct (String.eqb_spec d d') as [<-|Hne].
          - right. split; [left; reflexivity|]. split; [exact Hcwd|].
            apply Hold. rewrite Hlk, String.eqb_refl. reflexivity.
          - assert (Hn' : lookup_dir fs' d' = None).
            { rewrite Hlk. destruct (String.eqb_spec d d'); [contradiction | exact Hnone]. }
            destruct (Hnew d' Hn') as [H|(Hin & _ & H)]; [left; exact H|].
            right. split; [right; exact Hin|]. split; [exact Hcwd|].
            rewrite H, Hfresh. reflexivity. }
        split.
        { intros Hbt d' [<-|Hin]; [|apply Hall; assumption].
          unfold dir_exists. rewrite (Hold d (fresh_directory (w_fs w))); [reflexivity|].
          rewrite Hlk, String.eqb_refl. reflexivity. }
        split; [discriminate|]. split; [exact Hlog|].
        split; [exact Hs2|]. split; [congruence | congruence].
      * assert (Hcwd : cwd_writable (w_fs w) = false).
        { unfold mkdir in Hmk. rewrite Hex, Hs in Hmk.
          destruct (cwd_writable (w_fs w)); [discriminate | reflexivity]. }
        eexists false, _. split; [reflexivity|]. cbn [w_fs w_log].
        rewrite Hcwd. simpl.
        split; [split; discriminate|].
        split; [auto|]. split; [auto|]. split; [discriminate|].
        split; [discriminate|]. split; [eexists; reflexivity|]. auto.
Qed.

Lemma usable_is_creatable perm fs d :
  usable perm fs d = true -> creatable fs d = true.
Proof.
  unfold usable, creatable, dir_exists.
  destruct (lookup_dir fs d); [reflexivity|].
  intros H. apply andb_true_iff in H. destruct H as [-> _]. reflexivity.
Qed.

(** After a creation loop that said yes, a directory of the loop has the
    permission [usable] computed before the loop. *)
Lemma created_permission {L} directories (l : L) w w' perm d :
  cwd_searchable (w_fs w) = true ->
  create_missing directories (l, w) = (Ok true, (l, w')) ->
  In d directories ->
  match lookup_dir (w_fs w') d with Some x => perm x | None => false end
  = usable perm (w_fs w) d.
Proof.
  intros Hs Hrun Hin.
  destruct (create_missing_spec directories l w Hs)
    as (b & w1 & Hrun' & _ & Hold & Hnew & Hall & _).
  rewrite Hrun in Hrun'. inversion Hrun'; subst b w1; clear Hrun'.
  unfold usable. destruct (lookup_dir (w_fs w) d) as [x|] eqn:Hd.
  - rewrite (Hold _ _ Hd). reflexivity.
  - destruct (Hnew d Hd) as [Hnone|(_ & Hcwd & Hfresh)].
    + specialize (Hall eq_refl d Hin). unfold dir_exists in Hall.
      rewrite Hnone in Hall. discriminate.
    + rewrite Hfresh, Hcwd. reflexivity.
Qed.

Lemma validate_directories_spec {L} input_dir output_dir (l : L) w :
  cwd_searchable (w_fs w) = true ->
  exists b w',
    run (validate_directories input_dir output_dir) l w = (Ok b, (l, w'))
    /\ (b = true <-> usable d_readable (w_fs w) input_dir = true
                     /\ usable d_writable (w_fs w) output_dir = true)
    /\ (b = true -> dir_access_R (w_fs w') input_dir = true
                    /\ dir_access_W (w_fs w') output_dir = true)
    /\ (forall d x, lookup_dir (w_fs w) d = Some x -> lookup_dir (w_fs w') d = Some x)
    /\ (forall d, lookup_dir (w_fs w) d = None ->
                  lookup_dir (w_fs w') d = None
                  \/ ((d = input_dir \/ d = output_dir) /\
                      lookup_dir (w_fs w') d = Some (fresh_directory (w_fs w))))
    /\ (dir_exists (w_fs w) input_dir = true ->
        dir_exists (w_fs w) output_dir = true -> w_fs w' = w_fs w)
    /\ cwd_searchable (w_fs w') = true.
Proof.
  intros Hs. unfold run, validate_directories.
  destruct (create_missing_spec [input_dir; output_dir] l w Hs)
    as (b & w1 & Hrun & Hb & Hold & Hnew & Hall & Hsame & _ & Hs1 & _).
  assert (Hnew' : forall d, lookup_dir (w_fs w) d = None ->
                  lookup_dir (w_fs w1) d = None
                  \/ ((d = input_dir \/ d = output_dir) /\
                      lookup_dir (w_fs w1) d = Some (fresh_directory (w_fs w)))).
  { intros d Hd. destruct (Hnew d Hd) as [H|([<-|[<-|[]]] & _ & H)]; auto. }
  assert (Hsame' : dir_exists (w_fs w) input_dir = true ->
                   dir_exists (w_fs w) output_dir = true -> w_fs w1 = w_fs w).
  { intros Hi Ho. rewrite Hsame; [reflexivity|]. simpl. rewrite Hi, Ho. reflexivity. }
  unfold bind at 1. rewrite Hrun. destruct b; py.
  - pose proof (created_permission _ _ _ _ d_readable input_dir Hs Hrun
                  (or_introl eq_refl)) as HR.
    pose proof (created_permission _ _ _ _ d_writable output_dir Hs Hrun
                  (or_intror (or_introl eq_refl))) as HW.
    unfold dir_access_R, dir_access_W. rewrite Hs1. cbn [andb].
    destruct (match lookup_dir (w_fs w1) input_dir with
              | Some x => d_readable x | None => false end) eqn:ER; py.
    + destruct (match lookup_dir (w_fs w1) output_dir with
                | Some x => d_writable x | None => false end) eqn:EW; py.
      * exists true, w1. split; [reflexivity|].
        split; [rewrite <- HR, <- HW; tauto|]. rewrite Hs1, ER, EW.
        repeat split; auto.
      * eexists false, _. split; [reflexivity|]. cbn [w_fs].
        split; [rewrite <- HW; split; [discriminate | intros [_ H]; discriminate]|].
        split; [discriminate|]. repeat split; auto.
    + eexists false, _. split; [reflexivity|]. cbn [w_fs].
      split; [rewrite <- HR; split; [discriminate | intros [H _]; discriminate]|].
      split; [discriminate|]. repeat split; auto.
  - exists false, w1. split; [reflexivity|].
    split.
    { split; [discriminate|]. intros [HR HW].
      apply Hb. simpl.
      rewrite (usable_is_creatable _ _ _ HR), (usable_is_creatable _ _ _ HW).
      reflexivity. }
    split; [discriminate|]. repeat split; auto.
Qed.

Lemma validate_directories_raises {L} input_dir output_dir (l : L) w :
  cwd_searchable (w_fs w) = false ->
  run (validate_directories input_dir output_dir) l w
  = (Raise (PermissionError input_dir), (l, w)).
Proof.
  intros Hs. unfold run, validate_directories. unfold bind at 1.
  rewrite (create_missing_raises _ _ _ _ Hs). reflexivity.
Qed.

(** Directory validation gives every enumeration what it gave before. *)
Lemma kept_directories_keep_listing fs fs' x0 :
  (forall d x, lookup_dir fs d = Some x -> lookup_dir fs' d = Some x) ->
  (forall d, lookup_dir fs d = None ->
             lookup_dir fs' d = None \/ lookup_dir fs' d = Some x0) ->
  d_entries x0 = [] ->
  forall d, listing fs' d = listing fs d.
Proof.
  intros Hold Hnew Hempty d. unfold listing.
  destruct (lookup_dir fs d) as [x|] eqn:Hd.
  - rewrite (Hold _ _ Hd). reflexivity.
  - destruct (Hnew d Hd) as [->| ->]; [reflexivity|].
    rewrite Hempty. destruct (d_readable x0); reflexivity.
Qed.

Lemma validate_directories_run {L} input_dir output_dir (l : L) w :
  cwd_searchable (w_fs w) = true ->
  exists b w',
    run (validate_directories input_dir output_dir) l w = (Ok b, (l, w')) /\
    (forall d, listing (w_fs w') d = listing (w_fs w) d) /\
    cwd_searchable (w_fs w') = true.
Proof.
  intros Hs.
  destruct (validate_directories_spec input_dir output_dir l w Hs)
    as (b & w' & Hrun & _ & _ & Hold & Hnew & _ & Hs').
  exists b, w'. split; [exact Hrun|]. split; [|exact Hs'].
  apply (kept_directories_keep_listing _ _ (fresh_directory (w_fs w)) Hold);
    [|reflexivity].
  intros d Hd. destruct (Hnew d Hd) as [H|[_ H]]; auto.
Qed.

(** ** The run *)

Lemma merge_pdfs_without_log write_pdf env w :
  debug_log_opens env (w_fs w) = false ->
  exists e, open_debug_log env (w_fs w) = Raise e
            /\ run (merge_pdfs write_pdf env) tt w = (Raise e, (tt, w)).
Proof.
  unfold debug_log_opens. intros Hlog. unfold run, merge_pdfs, setup_logging. py.
  destruct (open_debug_log env (w_fs w)) as [[]|e]; [discriminate|].
  exists e. split; reflexivity.
Qed.

Lemma debug_log_opened env fs :
  debug_log_opens env fs = true -> open_debug_log env fs = Ok tt.
Proof.
  unfold debug_log_opens. destruct (open_debug_log env fs) as [[]|e];
    [reflexivity | discriminate].
Qed.

Lemma merge_pdfs_without_codec write_pdf env w :
  debug_log_opens env (w_fs w) = true ->
  pypdf2_importable env = false ->
  run (merge_pdfs write_pdf env) tt w
  = (Ok ExitRequirements,
     (tt, World (w_fs w)
            (w_log w ++ [(ERROR, PyPDF2NotInstalled); (ERROR, RequirementsNotMet)]))).
Proof.
  intros Hlog Hreq. unfold run, merge_pdfs, setup_logging, check_system_requirements.
  py. rewrite (debug_log_opened _ _ Hlog), Hreq. py. rewrite <- app_assoc. reflexivity.
Qed.

Lemma merge_pdfs_without_directories write_pdf env w w1 :
  debug_log_opens env (w_fs w) = true ->
  pypdf2_importable env = true ->
  run (validate_directories "input" "output") tt w = (Ok false, (tt, w1)) ->
  run (merge_pdfs write_pdf env) tt w
  = (Ok ExitDirectories,
     (tt, World (w_fs w1) (w_log w1 ++ [(ERROR, DirectoryValidationFailed)]))).
Proof.
  intros Hlog Hreq Hdirs. unfold run in *.
  unfold merge_pdfs, setup_logging, check_system_requirements.
  py. rewrite (debug_log_opened _ _ Hlog), Hreq. py. destruct w as [fs lg]. cbn [w_fs w_log] in *.
  rewrite Hdirs. reflexivity.
Qed.

Lemma merge_pdfs_run write_pdf env w w1 :
  debug_log_opens env (w_fs w) = true ->
  pypdf2_importable env = true ->
  run (validate_directories "input" "output") tt w = (Ok true, (tt, w1)) ->
  run (merge_pdfs write_pdf env) tt w =
  let fs := w_fs w1 in
  let valid := filter (is_valid fs) (glob_pdf fs "input") in
  let lg := w_log w1 ++ discovery_warnings fs "input" in
  match discovery_error fs "input" with
  | Some e => (Raise e, (tt, w1))
  | None =>
      match valid with
      | [] => (Ok ExitNoValidFiles, (tt, World fs (lg ++ [(ERROR, NoValidPdfFiles)])))
      | [single_file] =>
          match copy2 fs single_file (joinpath "output" (name single_file)) with
          | (Ok _, fs') =>
              (Ok ExitSingleFile, (tt, World fs' (lg ++ [(WARNING, OnlyOnePdfFile)])))
          | (Raise e, fs') =>
              (Ok ExitSingleFile,
               (tt, World fs' (lg ++ [(WARNING, OnlyOnePdfFile);
                                      (ERROR, FailedToCopy e)])))
          end
      | _ =>
          let r := run (merge_pdf_files write_pdf (sort_files_by_preference valid)
                                        (output_path env))
                       fresh_locals (World fs lg) in
          match result_of r with
          | Ok result =>
              (Ok (ExitMerged result),
               (tt, World (fs_of r)
                      (log_of r ++ match result with
                                   | Failure error _ =>
                                       [(ERROR, SummaryStatusFailed);
                                        (ERROR, SummaryError error)]
                                   | _ => []
                                   end)))
          | Raise e => (Raise e, (tt, World (fs_of r) (log_of r)))
          end
      end
  end.
Proof.
  intros Hlog Hreq Hdirs. unfold run in Hdirs |- *.
  unfold merge_pdfs, setup_logging, check_system_requirements.
  py. rewrite (debug_log_opened _ _ Hlog), Hreq. py. destruct w as [fs0 lg0]. cbn [w_fs w_log] in *.
  rewrite Hdirs. py.
  unfold call at 1. py.
  pose proof (find_and_validate_run "input" w1) as Hfind. unfold run in Hfind.
  rewrite Hfind. cbv zeta.
  destruct (discovery_error (w_fs w1) "input") as [e|]; [reflexivity|]. py.
  destruct (filter (is_valid (w_fs w1)) (glob_pdf (w_fs w1) "input"))
    as [|p [|q rest]] eqn:Hvalid.
  - reflexivity.
  - cbn [length Nat.ltb Nat.leb index0]. py. unfold act. cbn [fst snd w_fs w_log].
    destruct (copy2 (w_fs w1) p (joinpath "output" (name p))) as [[[]|e] fs']; py.
    + reflexivity.
    + rewrite <- app_assoc. reflexivity.
  - cbn [length Nat.ltb Nat.leb]. unfold call.
    unfold result_of, fs_of, log_of, run, output_path, fresh_locals. py.
    destruct (merge_pdf_files write_pdf _ _ _) as [[result|e] [l3 w3]]; py.
    + destruct result; unfold print_merge_summary; py;
        rewrite <- ?app_assoc, ?app_nil_r; destruct w3; reflexivity.
    + destruct w3; reflexivity.
Qed.

Lemma debug_log_needs_search env fs :
  debug_log_opens env fs = true -> cwd_searchable fs = true.
Proof.
  unfold debug_log_opens, open_debug_log.
  destruct (cwd_searchable fs); [reflexivity | discriminate].
Qed.

(** Before discovery the run has ended, or the log file is open, the
    codec is there and both directories are. *)
Lemma merge_pdfs_reaches_discovery write_pdf env w :
  is_ok (result_of (run (merge_pdfs write_pdf env) tt w)) = false
  \/ result_of (run (merge_pdfs write_pdf env) tt w) = Ok ExitRequirements
  \/ result_of (run (merge_pdfs write_pdf env) tt w) = Ok ExitDirectories
  \/ (debug_log_opens env (w_fs w) = true /\ pypdf2_importable env = true /\
      exists w1, run (validate_directories "input" "output") tt w = (Ok true, (tt, w1))).
Proof.
  destruct (debug_log_opens env (w_fs w)) eqn:Hlog;
    [|left; destruct (merge_pdfs_without_log write_pdf _ _ Hlog) as (e & _ & ->);
      reflexivity].
  destruct (pypdf2_importable env) eqn:Hreq;
    [|right; left; rewrite (merge_pdfs_without_codec _ _ _ Hlog Hreq); reflexivity].
  destruct (validate_directories_run "input" "output" tt w
              (debug_log_needs_search _ _ Hlog))
    as ([|] & w1 & Hdirs & _).
  - right. right. right. split; [reflexivity|]. split; [reflexivity|].
    exists w1. exact Hdirs.
  - right. right. left.
    rewrite (merge_pdfs_without_directories _ _ _ _ Hlog Hreq Hdirs). reflexivity.
Qed.

(** ** Order on keys *)

Lemma string_compare_refl s : String.compare s s = Eq.
Proof.
  induction s as [|c s IH]; simpl; [reflexivity|].
  unfold Ascii.compare. rewrite N.compare_refl. exact IH.
Qed.

Lemma string_leb_refl s : String.leb s s = true.
Proof. unfold String.leb. rewrite string_compare_refl. reflexivity. Qed.

Lemma string_leb_trans a b c :
  String.leb a b = true -> String.leb b c = true -> String.leb a c = true.
Proof.
  unfold String.leb. revert b c.
  induction a as [|x a IH]; intros [|y b] [|z c]; simpl; try easy.
  unfold Ascii.compare.
  destruct (N.compare_spec (N_of_ascii x) (N_of_ascii y)) as [Exy|Lxy|Gxy];
    destruct (N.compare_spec (N_of_ascii y) (N_of_ascii z)) as [Eyz|Lyz|Gyz];
    destruct (N.compare_spec (N_of_ascii x) (N_of_ascii z)) as [Exz|Lxz|Gxz];
    try easy; try lia.
  apply IH.
Qed.

Section StableSort.

Context {A : Type} (key : A -> string).

Lemma insert_by_perm x l : Permutation (x :: l) (insert_by key x l).
Proof.
  induction l as [|y rest IH]; simpl; [reflexivity|].
  destruct (String.leb (key x) (key y)); [reflexivity|].
  rewrite perm_swap. constructor. exact IH.
Qed.

Lemma sorted_perm l : Permutation l (sorted key l).
Proof.
  induction l as [|x rest IH]; simpl; [constructor|].
  rewrite <- insert_by_perm. constructor. exact IH.
Qed.

Lemma insert_by_sorted x l :
  StronglySorted (key_le key) l -> StronglySorted (key_le key) (insert_by key x l).
Proof.
  induction 1 as [|y rest Hs IH Hall]; simpl.
  - repeat constructor.
  - destruct (String.leb (key x) (key y)) eqn:Hxy.
    + constructor; [constructor; assumption|].
      constructor; [exact Hxy|].
      eapply Forall_impl; [|exact Hall].
      intros z Hyz. eapply string_leb_trans; eassumption.
    + constructor; [exact IH|].
      apply (Permutation_Forall (insert_by_perm x rest)).
      constructor; [|exact Hall].
      unfold key_le. destruct (String.leb_total (key x) (key y)); congruence.
Qed.

Lemma sorted_sorted l : StronglySorted (key_le key) (sorted key l).
Proof.
  induction l as [|x rest IH]; simpl; [constructor|].
  apply insert_by_sorted. exact IH.
Qed.

Lemma insert_by_filter k x l :
  filter (has_key key k) (insert_by key x l) = filter (has_key key k) (x :: l).
Proof.
  induction l as [|y rest IH]; simpl; [reflexivity|].
  destruct (String.leb (key x) (key y)) eqn:Hxy; [reflexivity|].
  simpl in *. rewrite IH. unfold has_key.
  destruct (String.eqb_spec (key x) k) as [Hx|]; [|reflexivity].
  destruct (String.eqb_spec (key y) k) as [Hy|]; [|reflexivity].
  rewrite Hx, Hy, string_leb_refl in Hxy. discriminate.
Qed.

(** Elements with the same key keep the order they had in the input. *)
Lemma sorted_stable k l :
  filter (has_key key k) (sorted key l) = filter (has_key key k) l.
Proof.
  induction l as [|x rest IH]; simpl; [reflexivity|].
  rewrite insert_by_filter. simpl. rewrite IH. reflexivity.
Qed.

(** The head of an ascending list has the least key. *)
Lemma filter_nonempty_In k (l : list A) x rest :
  filter (has_key key k) l = x :: rest -> exists y, In y l /\ key y = k.
Proof.
  intros H. assert (Hin : In x (filter (has_key key k) l)) by (rewrite H; left; reflexivity).
  apply filter_In in Hin. destruct Hin as [Hin Hk].
  exists x. split; [exact Hin|]. apply String.eqb_eq. exact Hk.
Qed.

Lemma has_key_self x : has_key key (key x) x = true.
Proof. apply String.eqb_refl. Qed.

(** If the key [k] occurs in the ascending list [x :: r], its head
    carries that key or a smaller one. *)
Lemma head_is_least k x r y rest :
  StronglySorted (key_le key) (x :: r) ->
  filter (has_key key k) (x :: r) = y :: rest ->
  String.leb (key x) k = true.
Proof.
  intros Hs Hf. apply StronglySorted_inv in Hs. destruct Hs as [_ Hall].
  simpl in Hf. destruct (has_key key k x) eqn:Ex.
  - apply String.eqb_eq in Ex. rewrite Ex. apply string_leb_refl.
  - apply filter_nonempty_In in Hf. destruct Hf as (z & Hz & Hk).
    rewrite Forall_forall in Hall. specialize (Hall z Hz).
    unfold key_le in Hall. rewrite Hk in Hall. exact Hall.
Qed.

(** Two ascending lists whose elements of every key are the same, in the
    same order, are equal: a stable ascending sort has one result. *)
Lemma stable_sort_unique l1 :
  forall l2,
    StronglySorted (key_le key) l1 -> StronglySorted (key_le key) l2 ->
    (forall k, filter (has_key key k) l1 = filter (has_key key k) l2) ->
    l1 = l2.
Proof.
  induction l1 as [|x r1 IH]; intros l2 S1 S2 Hf.
  - destruct l2 as [|y r2]; [reflexivity|].
    specialize (Hf (key y)). simpl in Hf.
    rewrite has_key_self in Hf. discriminate.
  - destruct l2 as [|y r2].
    + specialize (Hf (key x)). simpl in Hf.
      rewrite has_key_self in Hf. discriminate.
    + assert (Hxy : String.leb (key x) (key y) = true).
      { eapply (head_is_least (key y) x r1); [exact S1|].
        rewrite Hf. simpl. rewrite has_key_self. reflexivity. }
      assert (Hyx : String.leb (key y) (key x) = true).
      { eapply (head_is_least (key x) y r2); [exact S2|].
        rewrite <- Hf. simpl. rewrite has_key_self. reflexivity. }
      assert (Hk : key x = key y) by (apply String.leb_antisym; assumption).
      assert (Hsame : forall k, has_key key k y = has_key key k x)
        by (intros k; unfold has_key; rewrite Hk; reflexivity).
      assert (Hhead : x = y /\
                      forall k, filter (has_key key k) r1 = filter (has_key key k) r2).
      { split.
        - specialize (Hf (key x)). simpl in Hf.
          rewrite Hsame, has_key_self in Hf. congruence.
        - intros k. specialize (Hf k). simpl in Hf. rewrite Hsame in Hf.
          destruct (has_key key k x); congruence. }
      destruct Hhead as [-> Htail].
      apply StronglySorted_inv in S1, S2. f_equal. apply IH; tauto.
Qed.

End StableSort.

(** ** Page slots and the vocabulary *)

Lemma good_prefix_complete slots :
  first_error slots = None -> slots = map Ok (good_prefix slots).
Proof.
  induction slots as [|[pg|e] slots IH]; simpl; intros H.
  - reflexivity.
  - f_equal. exact (IH H).
  - discriminate.
Qed.

Lemma document_complete fs p :
  merges_ok fs p = true -> document fs p = map Ok (pages_taken fs p).
Proof.
  unfold merges_ok, merge_failure, document, pages_taken.
  destruct (PdfReader fs p) as [slots|e]; [|discriminate].
  destruct (first_error slots) eqn:H; [discriminate|].
  intros _. apply good_prefix_complete. exact H.
Qed.

Lemma pages_of_recorded fs pdf_files :
  sum_list (map pages (recorded fs pdf_files)) = counted fs pdf_files.
Proof.
  unfold recorded, counted.
  induction (filter (merges_ok fs) pdf_files) as [|p rest IH]; simpl;
    [reflexivity | rewrite IH; reflexivity].
Qed.

Lemma filter_none {A} (f : A -> bool) l :
  (forall x, In x l -> f x = false) -> filter f l = [].
Proof.
  induction l as [|x l IH]; simpl; intros H; [reflexivity|].
  rewrite (H x (or_introl eq_refl)). apply IH. auto.
Qed.

Lemma filter_shorter {A} (f : A -> bool) l :
  length (filter f l) <= length l /\
  (length (filter f l) < length l <-> exists x, In x l /\ f x = false).
Proof.
  induction l as [|x l [IHle IHlt]]; simpl.
  - split; [lia|]. split; [lia | intros (x & [] & _)].
  - destruct (f x) eqn:Hx; simpl; split; try lia.
    + rewrite <- Nat.succ_lt_mono, IHlt. split.
      * intros (y & Hy & Hf). exists y. auto.
      * intros (y & [<-|Hy] & Hf); [congruence | exists y; auto].
    + split; [|lia]. intros _. exists x. auto.
Qed.

Lemma flat_map_nil {A B} (f : A -> list B) l :
  (forall x, In x l -> f x = []) -> flat_map f l = [].
Proof.
  induction l as [|x l IH]; simpl; intros H; [reflexivity|].
  rewrite (H x (or_introl eq_refl)). apply IH. auto.
Qed.

Lemma taken_pages_are_documents fs pdf_files :
  (forall p, In p pdf_files -> merges_ok fs p = false -> pages_taken fs p = []) ->
  map Ok (flat_map (pages_taken fs) pdf_files)
  = flat_map (document fs) (filter (merges_ok fs) pdf_files).
Proof.
  induction pdf_files as [|p rest IH]; simpl; intros H; [reflexivity|].
  rewrite map_app, IH by (intros q Hq; apply H; right; exact Hq).
  destruct (merges_ok fs p) eqn:Hok; simpl.
  - rewrite (document_complete _ _ Hok). reflexivity.
  - rewrite (H p (or_introl eq_refl) Hok). reflexivity.
Qed.

(** What is left in the frame and on the disk does not depend on how the
    write ends. *)
Lemma merge_locals_run write_pdf pdf_files output_file w :
  locals_of (run (merge_pdf_files write_pdf pdf_files output_file) fresh_locals w)
  = MergeLocals (accumulated (w_fs w) pdf_files) (counted (w_fs w) pdf_files)
                (recorded (w_fs w) pdf_files).
Proof.
  rewrite merge_pdf_files_run. cbv zeta.
  destruct (write_pdf _ _ _) as [[[]|e] fs']; [|reflexivity].
  destruct (path_exists fs' output_file); reflexivity.
Qed.

Lemma merge_fs_run write_pdf pdf_files output_file w :
  fs_of (run (merge_pdf_files write_pdf pdf_files output_file) fresh_locals w)
  = snd (write_pdf (w_fs w) output_file (accumulated (w_fs w) pdf_files)).
Proof.
  rewrite merge_pdf_files_run. cbv zeta.
  destruct (write_pdf _ _ _) as [[[]|e] fs']; [|reflexivity].
  destruct (path_exists fs' output_file); reflexivity.
Qed.

Lemma merge_log_run write_pdf pdf_files output_file w :
  exists tail,
    log_of (run (merge_pdf_files write_pdf pdf_files output_file) fresh_locals w)
    = (w_log w ++ flat_map (failure_records (w_fs w)) pdf_files) ++ tail.
Proof.
  rewrite merge_pdf_files_run. cbv zeta.
  destruct (write_pdf _ _ _) as [[[]|e] fs'].
  - destruct (path_exists fs' output_file); eexists; unfold log_of; simpl;
      [symmetry; apply app_nil_r | reflexivity].
  - eexists. reflexivity.
Qed.

(* ================================================================== *)
(** * The Merge Engine *)
(* ================================================================== *)

(** C2, as the code has it.  When no document fails after one of its
    pages has been appended, the pages the writer holds when it is
    serialized are exactly the page sequences, each in its stored order,
    of the documents that did not fail, one after the other in the order
    in which the documents were given; and these pages, in this order,
    are what is handed to the write. *)
Theorem merge_page_order write_pdf pdf_files output_file w :
  (forall p, In p pdf_files -> merges_ok (w_fs w) p = false ->
             pages_taken (w_fs w) p = []) ->
  map Ok (writer (locals_of (run (merge_pdf_files write_pdf pdf_files output_file)
                                 fresh_locals w)))
  = flat_map (document (w_fs w)) (filter (merges_ok (w_fs w)) pdf_files)
  /\ fs_of (run (merge_pdf_files write_pdf pdf_files output_file) fresh_locals w)
     = snd (write_pdf (w_fs w) output_file
              (writer (locals_of (run (merge_pdf_files write_pdf pdf_files output_file)
                                      fresh_locals w)))).
Proof.
  intros Hwhole.
  rewrite merge_locals_run, merge_fs_run. cbn [writer]. unfold accumulated.
  split; [|reflexivity].
  apply taken_pages_are_documents. exact Hwhole.
Qed.

Lemma merge_page_order_witness :
  map Ok (writer (locals_of
       (run (merge_pdf_files posix_write
               [joinpath "input" "a.pdf"; joinpath "input" "junk.pdf";
                joinpath "input" "B.pdf"]
               (joinpath "output" "merged.pdf"))
            fresh_locals
            (start (disk [("B.pdf", B_pdf); ("junk.pdf", junk_pdf); ("a.pdf", a_pdf)] [])))))
  = [good "a1"; good "a2"; good "B1"].
Proof.
  refine (proj1
    (merge_page_order posix_write
       [joinpath "input" "a.pdf"; joinpath "input" "junk.pdf";
        joinpath "input" "B.pdf"]
       (joinpath "output" "merged.pdf")
       (start (disk [("B.pdf", B_pdf); ("junk.pdf", junk_pdf); ("a.pdf", a_pdf)] []))
       _)).
  intros p [<-|[<-|[<-|[]]]]; intros H; try discriminate H; reflexivity.
Defined.

(** C2 as stated fails here, in two ways.  All documents pass
    validation.  The first page of [headless.pdf] cannot be appended: the
    document is skipped, and the writer holds the pages of [a.pdf] alone,
    not the page sequences of the two documents given.  The second page of
    [torn.pdf] cannot be appended: the writer holds the two pages of
    [a.pdf] and the first page of [torn.pdf], which is neither the page
    sequences of the two documents given, one after the other, nor those
    of the documents that did not fail. *)
Lemma merge_page_order_fails_after_partial_append :
  map (is_valid (disk [("a.pdf", a_pdf); ("headless.pdf", headless_pdf)] []))
      [joinpath "input" "a.pdf"; joinpath "input" "headless.pdf"]
  = [true; true]
  /\ map Ok (writer (locals_of
       (run (merge_pdf_files posix_write
               [joinpath "input" "a.pdf"; joinpath "input" "headless.pdf"]
               (joinpath "output" "merged.pdf"))
            fresh_locals
            (start (disk [("a.pdf", a_pdf); ("headless.pdf", headless_pdf)] [])))))
     = [good "a1"; good "a2"]
  /\ flat_map (document (disk [("a.pdf", a_pdf); ("headless.pdf", headless_pdf)] []))
              [joinpath "input" "a.pdf"; joinpath "input" "headless.pdf"]
     = [good "a1"; good "a2"; damaged; good "h2"]
  /\ map (is_valid (disk [("a.pdf", a_pdf); ("torn.pdf", torn_pdf)] []))
         [joinpath "input" "a.pdf"; joinpath "input" "torn.pdf"]
     = [true; true]
  /\ map Ok (writer (locals_of
       (run (merge_pdf_files posix_write
               [joinpath "input" "a.pdf"; joinpath "input" "torn.pdf"]
               (joinpath "output" "merged.pdf"))
            fresh_locals
            (start (disk [("a.pdf", a_pdf); ("torn.pdf", torn_pdf)] [])))))
     = [good "a1"; good "a2"; good "t1"]
  /\ flat_map (document (disk [("a.pdf", a_pdf); ("torn.pdf", torn_pdf)] []))
              [joinpath "input" "a.pdf"; joinpath "input" "torn.pdf"]
     = [good "a1"; good "a2"; good "t1"; damaged; good "t3"]
  /\ flat_map (document (disk [("a.pdf", a_pdf); ("torn.pdf", torn_pdf)] []))
              (filter (merges_ok (disk [("a.pdf", a_pdf); ("torn.pdf", torn_pdf)] []))
                      [joinpath "input" "a.pdf"; joinpath "input" "torn.pdf"])
     = [good "a1"; good "a2"].
Proof. repeat split. Qed.

(** C8. A merge returns exactly one of three results, decided by the
    write alone (no document makes the loop raise): when the write raises
    [e], the failure result carrying [str(e)] and [type(e).__name__];
    when the write returns and the destination does not exist, the failure
    result 'Output file not created' without an error type; when the write
    returns and the destination exists, the success result with the size
    of the destination.  So [success] is false in the first two situations
    and in no other. *)
Theorem merge_result_cases write_pdf pdf_files output_file w :
  match write_pdf (w_fs w) output_file (accumulated (w_fs w) pdf_files) with
  | (Raise e, _) =>
      result_of (run (merge_pdf_files write_pdf pdf_files output_file) fresh_locals w)
      = Ok (Failure (exn_msg e) (Some (exn_type e)))
      /\ In (ERROR, MergeFailed e)
            (log_of (run (merge_pdf_files write_pdf pdf_files output_file)
                         fresh_locals w))
  | (Ok _, fs') =>
      if path_exists fs' output_file then
        result_of (run (merge_pdf_files write_pdf pdf_files output_file) fresh_locals w)
        = Ok (Success (name output_file) (counted (w_fs w) pdf_files)
                      (length pdf_files) (byte_size fs' output_file)
                      (recorded (w_fs w) pdf_files))
      else
        result_of (run (merge_pdf_files write_pdf pdf_files output_file) fresh_locals w)
        = Ok (Failure "Output file not created" None)
        /\ In (ERROR, OutputFileNotFound)
              (log_of (run (merge_pdf_files write_pdf pdf_files output_file)
                           fresh_locals w))
  end
  /\ exists result,
       result_of (run (merge_pdf_files write_pdf pdf_files output_file) fresh_locals w)
       = Ok result
       /\ (success result = false <->
           is_ok (fst (write_pdf (w_fs w) output_file
                                 (accumulated (w_fs w) pdf_files))) = false
           \/ path_exists (snd (write_pdf (w_fs w) output_file
                                          (accumulated (w_fs w) pdf_files)))
                           output_file = false).
Proof.
  rewrite merge_pdf_files_run. cbv zeta.
  destruct (write_pdf _ _ _) as [[[]|e] fs']; simpl fst; simpl snd.
  - destruct (path_exists fs' output_file) eqn:Hex.
    + split; [reflexivity|]. eexists. split; [reflexivity|]. simpl.
      split; [discriminate | intros [H|H]; discriminate].
    + split.
      * split; [reflexivity|]. unfold log_of; simpl.
        apply in_or_app. right. left. reflexivity.
      * eexists. split; [reflexivity|]. simpl. tauto.
  - split.
    + split; [reflexivity|]. unfold log_of; simpl.
      apply in_or_app. right. left. reflexivity.
    + eexists. split; [reflexivity|]. simpl. tauto.
Qed.

(** The three results on the same two documents: an ordinary write, a
    write into a read-only [output], a write that leaves nothing behind. *)
Example merge_example_success :
  result_of (run (merge_pdf_files posix_write
                    [joinpath "input" "a.pdf"; joinpath "input" "B.pdf"]
                    (joinpath "output" "merged.pdf"))
                 fresh_locals
                 (start (disk [("B.pdf", B_pdf); ("a.pdf", a_pdf)] [])))
  = Ok (Success "merged.pdf" 3 2 10
                [FileEntry "a.pdf" 2 6; FileEntry "B.pdf" 1 6]).
Proof. reflexivity. Qed.

Example merge_example_write_raises :
  result_of (run (merge_pdf_files posix_write
                    [joinpath "input" "a.pdf"; joinpath "input" "B.pdf"]
                    (joinpath "output" "merged.pdf"))
                 fresh_locals
                 (start (Filesystem true true rwx
                           [("input", Directory true true true
                                        (files [("B.pdf", B_pdf); ("a.pdf", a_pdf)]));
                            ("output", Directory true false true [])])))
  = Ok (Failure "[Errno 13] Permission denied: 'output/merged.pdf'"
                (Some "PermissionError")).
Proof. reflexivity. Qed.

Example merge_example_output_missing :
  result_of (run (merge_pdf_files lost_write
                    [joinpath "input" "a.pdf"; joinpath "input" "B.pdf"]
                    (joinpath "output" "merged.pdf"))
                 fresh_locals
                 (start (disk [("B.pdf", B_pdf); ("a.pdf", a_pdf)] [])))
  = Ok (Failure "Output file not created" None).
Proof. reflexivity. Qed.

(** C9. If every document fails during the merge pass, the writer is
    serialized all the same, and if that write returns and the destination
    exists the result is a success with [total_pages] 0, an empty
    [file_info] and [total_files] the number of documents given: the case
    is not treated as a failure of the merge.  The writer is empty when no
    page of any document was appended. *)
Theorem all_documents_fail_still_success write_pdf pdf_files output_file w fs' :
  (forall p, In p pdf_files -> merges_ok (w_fs w) p = false) ->
  write_pdf (w_fs w) output_file (accumulated (w_fs w) pdf_files) = (Ok tt, fs') ->
  path_exists fs' output_file = true ->
  result_of (run (merge_pdf_files write_pdf pdf_files output_file) fresh_locals w)
  = Ok (Success (name output_file) 0 (length pdf_files)
                (byte_size fs' output_file) [])
  /\ fs_of (run (merge_pdf_files write_pdf pdf_files output_file) fresh_locals w)
     = fs'
  /\ ((forall p, In p pdf_files -> pages_taken (w_fs w) p = []) ->
      writer (locals_of (run (merge_pdf_files write_pdf pdf_files output_file)
                             fresh_locals w)) = []).
Proof.
  intros Hfail Hwrite Hex.
  assert (Hcnt : counted (w_fs w) pdf_files = 0)
    by (unfold counted; rewrite (filter_none _ _ Hfail); reflexivity).
  assert (Hrec : recorded (w_fs w) pdf_files = [])
    by (unfold recorded; rewrite (filter_none _ _ Hfail); reflexivity).
  rewrite merge_locals_run, merge_fs_run, merge_pdf_files_run. cbv zeta.
  rewrite Hcnt, Hrec, Hwrite, Hex. repeat split.
  intros Hnone. apply flat_map_nil. exact Hnone.
Qed.

Lemma all_documents_fail_still_success_witness :
  result_of (run (merge_pdf_files posix_write
                    [joinpath "input" "junk.pdf"; joinpath "input" "locked.pdf"]
                    (joinpath "output" "merged.pdf"))
                 fresh_locals
                 (start (disk [("junk.pdf", junk_pdf); ("locked.pdf", locked_pdf)] [])))
  = Ok (Success "merged.pdf" 0 2 4 [])
  /\ document (fs_of (run (merge_pdf_files posix_write
                    [joinpath "input" "junk.pdf"; joinpath "input" "locked.pdf"]
                    (joinpath "output" "merged.pdf"))
                 fresh_locals
                 (start (disk [("junk.pdf", junk_pdf); ("locked.pdf", locked_pdf)] []))))
              (joinpath "output" "merged.pdf")
     = [].
Proof.
  assert (H := all_documents_fail_still_success posix_write
            [joinpath "input" "junk.pdf"; joinpath "input" "locked.pdf"]
            (joinpath "output" "merged.pdf")
            (start (disk [("junk.pdf", junk_pdf); ("locked.pdf", locked_pdf)] []))
            (disk [("junk.pdf", junk_pdf); ("locked.pdf", locked_pdf)]
                  [("merged.pdf", File true true true "%PDF" (Ok []))])).
  destruct H as (Hres & Hfs & _).
  - intros p [<-|[<-|[]]]; reflexivity.
  - reflexivity.
  - reflexivity.
  - split; [exact Hres|]. rewrite Hfs. reflexivity.
Defined.

Lemma merge_success_fields
      write_pdf pdf_files output_file w out total files size info :
  result_of (run (merge_pdf_files write_pdf pdf_files output_file) fresh_locals w)
  = Ok (Success out total files size info) ->
  total = counted (w_fs w) pdf_files
  /\ info = recorded (w_fs w) pdf_files
  /\ files = length pdf_files.
Proof.
  rewrite merge_pdf_files_run. cbv zeta.
  destruct (write_pdf _ _ _) as [[[]|e] fs']; [|discriminate].
  destruct (path_exists fs' output_file); [|discriminate].
  unfold result_of; simpl. intros H. inversion H; subst; clear H.
  repeat split.
Qed.

(** C10. In a successful result [total_pages] is the sum of the [pages]
    of [file_info]; [file_info] holds, in processing order, the entries of
    the documents that did not fail; [total_files] is the number of
    documents given, failed ones included, so it is at least the length of
    [file_info] and strictly larger exactly when some document failed. *)
Theorem success_result_invariants
        write_pdf pdf_files output_file w out total files size info :
  result_of (run (merge_pdf_files write_pdf pdf_files output_file) fresh_locals w)
  = Ok (Success out total files size info) ->
  total = sum_list (map pages info)
  /\ info = map (entry_of (w_fs w)) (filter (merges_ok (w_fs w)) pdf_files)
  /\ files = length pdf_files
  /\ length info <= files
  /\ (length info < files <->
      exists p, In p pdf_files /\ merges_ok (w_fs w) p = false).
Proof.
  intros H. apply merge_success_fields in H. destruct H as (-> & -> & ->).
  rewrite pages_of_recorded. unfold recorded. rewrite length_map.
  destruct (filter_shorter (merges_ok (w_fs w)) pdf_files) as [Hle Hlt].
  repeat split; auto; apply Hlt.
Qed.

Lemma success_result_invariants_witness :
  result_of (run (merge_pdf_files posix_write
                    [joinpath "input" "a.pdf"; joinpath "input" "torn.pdf"]
                    (joinpath "output" "merged.pdf"))
                 fresh_locals
                 (start (disk [("a.pdf", a_pdf); ("torn.pdf", torn_pdf)] [])))
  = Ok (Success "merged.pdf" 2 2 10 [FileEntry "a.pdf" 2 6])
  /\ 2 = sum_list (map pages [FileEntry "a.pdf" 2 6])
  /\ length [FileEntry "a.pdf" 2 6] < 2.
Proof.
  assert (H : result_of (run (merge_pdf_files posix_write
                    [joinpath "input" "a.pdf"; joinpath "input" "torn.pdf"]
                    (joinpath "output" "merged.pdf"))
                 fresh_locals
                 (start (disk [("a.pdf", a_pdf); ("torn.pdf", torn_pdf)] [])))
              = Ok (Success "merged.pdf" 2 2 10 [FileEntry "a.pdf" 2 6]))
    by reflexivity.
  split; [exact H|].
  destruct (success_result_invariants _ _ _ _ _ _ _ _ _ H)
    as (Htotal & _ & _ & _ & Hlt).
  split; [exact Htotal|].
  apply Hlt. exists (joinpath "input" "torn.pdf").
  split; [right; left|]; reflexivity.
Defined.

Lemma counted_app fs l1 l2 : counted fs (l1 ++ l2) = counted fs l1 + counted fs l2.
Proof.
  unfold counted. rewrite filter_app, map_app.
  induction (map (page_count fs) (filter (merges_ok fs) l1)) as [|n l IH]; simpl;
    [reflexivity | rewrite IH; lia].
Qed.

Lemma recorded_app fs l1 l2 : recorded fs (l1 ++ l2) = recorded fs l1 ++ recorded fs l2.
Proof. unfold recorded. rewrite filter_app, map_app. reflexivity. Qed.

Lemma failed_document_not_counted fs p e :
  merge_failure fs p = Some e ->
  counted fs [p] = 0 /\ recorded fs [p] = [] /\
  failure_records fs p = [(ERROR, FailedToProcess (name p) e)].
Proof.
  intros H. unfold counted, recorded, failure_records, merges_ok. simpl.
  rewrite H. repeat split.
Qed.

(** C7. A document that does not open, or one of whose pages cannot be
    appended, during the merge pass adds nothing to [total_pages] and has
    no entry in [file_info]: both are what the documents before and after
    it give; the failure is logged as an ERROR; the documents after it are
    still processed and recorded, and the merge still returns a success
    whenever the write returns and the destination exists. *)
Theorem failed_document_is_skipped
        write_pdf before p after output_file w e :
  merge_failure (w_fs w) p = Some e ->
  total_pages (locals_of (run (merge_pdf_files write_pdf (before ++ p :: after)
                                               output_file) fresh_locals w))
  = counted (w_fs w) before + counted (w_fs w) after
  /\ file_info (locals_of (run (merge_pdf_files write_pdf (before ++ p :: after)
                                                output_file) fresh_locals w))
     = recorded (w_fs w) before ++ recorded (w_fs w) after
  /\ In (ERROR, FailedToProcess (name p) e)
        (log_of (run (merge_pdf_files write_pdf (before ++ p :: after)
                                      output_file) fresh_locals w))
  /\ (forall fs',
        write_pdf (w_fs w) output_file
                  (accumulated (w_fs w) (before ++ p :: after)) = (Ok tt, fs') ->
        path_exists fs' output_file = true ->
        result_of (run (merge_pdf_files write_pdf (before ++ p :: after)
                                        output_file) fresh_locals w)
        = Ok (Success (name output_file)
                      (counted (w_fs w) before + counted (w_fs w) after)
                      (length (before ++ p :: after))
                      (byte_size fs' output_file)
                      (recorded (w_fs w) before ++ recorded (w_fs w) after))).
Proof.
  intros Hfail.
  destruct (failed_document_not_counted _ _ _ Hfail) as (Hc & Hr & Hl).
  assert (Hcnt : counted (w_fs w) (before ++ p :: after)
                 = counted (w_fs w) before + counted (w_fs w) after).
  { change (p :: after) with ([p] ++ after).
    rewrite !counted_app, Hc. reflexivity. }
  assert (Hrec : recorded (w_fs w) (before ++ p :: after)
                 = recorded (w_fs w) before ++ recorded (w_fs w) after).
  { change (p :: after) with ([p] ++ after).
    rewrite !recorded_app, Hr. reflexivity. }
  rewrite merge_locals_run. cbn [total_pages file_info].
  split; [exact Hcnt|]. split; [exact Hrec|]. split.
  - destruct (merge_log_run write_pdf (before ++ p :: after) output_file w)
      as [tail ->].
    apply in_or_app. left. apply in_or_app. right.
    rewrite flat_map_app. apply in_or_app. right.
    simpl. rewrite Hl. left. reflexivity.
  - intros fs' Hwrite Hex. rewrite merge_pdf_files_run. cbv zeta.
    rewrite Hwrite, Hex, Hcnt, Hrec. reflexivity.
Qed.

Lemma failed_document_is_skipped_witness :
  is_valid (disk [("B.pdf", B_pdf); ("torn.pdf", torn_pdf); ("a.pdf", a_pdf)] [])
           (joinpath "input" "torn.pdf") = true
  /\ merge_failure (disk [("B.pdf", B_pdf); ("torn.pdf", torn_pdf); ("a.pdf", a_pdf)] [])
                   (joinpath "input" "torn.pdf")
     = Some (Exn "PdfReadError" "damaged page object")
  /\ total_pages (locals_of
       (run (merge_pdf_files posix_write
               ([joinpath "input" "a.pdf"]
                ++ joinpath "input" "torn.pdf" :: [joinpath "input" "B.pdf"])
               (joinpath "output" "merged.pdf"))
            fresh_locals
            (start (disk [("B.pdf", B_pdf); ("torn.pdf", torn_pdf); ("a.pdf", a_pdf)] []))))
     = 2 + 1.
Proof.
  split; [reflexivity|]. split; [reflexivity|].
  exact (proj1 (failed_document_is_skipped posix_write
           [joinpath "input" "a.pdf"] (joinpath "input" "torn.pdf")
           [joinpath "input" "B.pdf"] (joinpath "output" "merged.pdf")
           (start (disk [("B.pdf", B_pdf); ("torn.pdf", torn_pdf); ("a.pdf", a_pdf)] []))
           (Exn "PdfReadError" "damaged page object") eq_refl)).
Defined.

Lemma clean_document_length fs p :
  merges_ok fs p = true -> length (pages_taken fs p) = page_count fs p.
Proof.
  intros H. pose proof (document_complete fs p H) as Hdoc.
  unfold document, page_count, pages_taken in *.
  destruct (PdfReader fs p) as [slots|e]; [|reflexivity].
  rewrite Hdoc at 2. rewrite length_map. reflexivity.
Qed.

(** The number of pages handed to the write is [total_pages] plus the
    pages appended from documents before they failed. *)
Lemma written_page_count fs pdf_files :
  length (accumulated fs pdf_files) = counted fs pdf_files + stray_pages fs pdf_files.
Proof.
  unfold accumulated, counted, stray_pages.
  induction pdf_files as [|p rest IH]; simpl; [reflexivity|].
  rewrite length_app, IH.
  destruct (merges_ok fs p) eqn:Hok; simpl.
  - rewrite (clean_document_length _ _ Hok). lia.
  - lia.
Qed.

(** Documents that fail before their first page is appended leave the
    written page count equal to [total_pages]. *)
Lemma written_page_count_when_failures_are_whole fs pdf_files :
  (forall p, In p pdf_files -> merges_ok fs p = false -> pages_taken fs p = []) ->
  length (accumulated fs pdf_files) = counted fs pdf_files.
Proof.
  intros H. rewrite written_page_count.
  assert (Hz : stray_pages fs pdf_files = 0); [|lia].
  unfold stray_pages. induction pdf_files as [|p rest IH]; simpl; [reflexivity|].
  destruct (merges_ok fs p) eqn:Hok; simpl.
  - apply IH. intros q Hq. apply H. right. exact Hq.
  - rewrite (H p (or_introl eq_refl) Hok). simpl.
    apply IH. intros q Hq. apply H. right. exact Hq.
Qed.

(** C1. On an input directory holding [a.pdf] (two pages) and [torn.pdf]
    (three pages, of which the second cannot be appended), both documents
    pass validation, [torn.pdf] fails during the merge pass, the result is
    a success whose [total_pages] is 2, the sum over the documents that did
    not fail, and the merged output holds 3 pages: the first page of
    [torn.pdf] was appended before the failure and stays in the writer. *)
Theorem merged_output_keeps_pages_of_failed_document :
  result_of (run (find_and_validate_pdf_files "input") []
                 (start (disk [("a.pdf", a_pdf); ("torn.pdf", torn_pdf)] [])))
  = Ok [joinpath "input" "a.pdf"; joinpath "input" "torn.pdf"]
  /\ map (merges_ok (disk [("a.pdf", a_pdf); ("torn.pdf", torn_pdf)] []))
         [joinpath "input" "a.pdf"; joinpath "input" "torn.pdf"]
     = [true; false]
  /\ counted (disk [("a.pdf", a_pdf); ("torn.pdf", torn_pdf)] [])
             [joinpath "input" "a.pdf"; joinpath "input" "torn.pdf"] = 2
  /\ result_of (run (merge_pdfs posix_write clock) tt
                    (start (disk [("a.pdf", a_pdf); ("torn.pdf", torn_pdf)] [])))
     = Ok (ExitMerged (Success "merged_pdf_20240101_120000.pdf" 2 2 10
                               [FileEntry "a.pdf" 2 6]))
  /\ document (fs_of (run (merge_pdfs posix_write clock) tt
                          (start (disk [("a.pdf", a_pdf); ("torn.pdf", torn_pdf)] []))))
              (output_path clock)
     = [good "a1"; good "a2"; good "t1"].
Proof. repeat split. Qed.

(* ================================================================== *)
(** * The Ordering Policy *)
(* ================================================================== *)

(** C3. [sort_files_by_preference] returns a rearrangement of its input
    that ascends in the lower-cased filename; documents whose lower-cased
    filenames are equal keep the order they had in the input; and the
    names B.pdf, a.pdf, C.pdf come out as a.pdf, B.pdf, C.pdf. *)
Theorem sort_files_by_preference_stable_ascending (pdf_files : list Path) :
  Permutation pdf_files (sort_files_by_preference pdf_files)
  /\ StronglySorted (key_le name_key) (sort_files_by_preference pdf_files)
  /\ (forall k, filter (has_key name_key k) (sort_files_by_preference pdf_files)
                = filter (has_key name_key k) pdf_files)
  /\ map name (sort_files_by_preference
                 (map (joinpath "input") ["B.pdf"; "a.pdf"; "C.pdf"]))
     = ["a.pdf"; "B.pdf"; "C.pdf"].
Proof.
  unfold sort_files_by_preference. fold name_key.
  split; [apply sorted_perm|].
  split; [apply sorted_sorted|].
  split; [intros k; apply sorted_stable | reflexivity].
Qed.

(** A stable ascending sort has one result, so Python's [sorted] returns
    what [sort_files_by_preference] returns here. *)
Lemma sort_files_by_preference_unique pdf_files l :
  StronglySorted (key_le name_key) l ->
  (forall k, filter (has_key name_key k) l = filter (has_key name_key k) pdf_files) ->
  l = sort_files_by_preference pdf_files.
Proof.
  intros Hs Hf. apply (stable_sort_unique name_key); [exact Hs | |].
  - apply sorted_sorted.
  - intros k. rewrite Hf. symmetry. apply sorted_stable.
Qed.

(** Two names that differ in case only: the one discovered first is
    merged first. *)
Example sort_keeps_discovery_order_on_ties :
  map name (sort_files_by_preference
              (map (joinpath "input") ["b.PDF.pdf"; "A.pdf"; "a.pdf"; "B.pdf.pdf"]))
  = ["A.pdf"; "a.pdf"; "b.PDF.pdf"; "B.pdf.pdf"].
Proof. reflexivity. Qed.


(* ================================================================== *)
(** * Discovery and the run *)
(* ================================================================== *)


Lemma valid_has_pages fs p : is_valid fs p = true -> 1 <= page_count fs p.
Proof.
  unfold is_valid, predicates. simpl. rewrite !andb_true_iff.
  intros (_ & _ & _ & _ & H & _). unfold holds, complaint in H.
  destruct (Nat.leb_spec 1 (page_count fs p)); [assumption | discriminate].
Qed.





(** One candidate per way of failing, and one that fails two predicates
    and is reported for the first of them only. *)
Example discovery_example :
  run (find_and_validate_pdf_files "input") []
      (start (disk_with true true true
                [("C.pdf", Regular C_pdf); ("gone.pdf", Dangling);
                 ("locked.pdf", Regular locked_pdf);
                 ("empty.pdf", Regular empty_pdf); ("junk.pdf", Regular junk_pdf);
                 ("zero.pdf", Regular zero_pdf);
                 ("both.pdf", Regular (File false true true "" (Ok [])));
                 ("notes.txt", Regular a_pdf); ("torn.pdf", Regular torn_pdf)]))
  = (Ok [joinpath "input" "C.pdf"; joinpath "input" "torn.pdf"],
     ([joinpath "input" "C.pdf"; joinpath "input" "torn.pdf"],
      World (disk_with true true true
                [("C.pdf", Regular C_pdf); ("gone.pdf", Dangling);
                 ("locked.pdf", Regular locked_pdf);
                 ("empty.pdf", Regular empty_pdf); ("junk.pdf", Regular junk_pdf);
                 ("zero.pdf", Regular zero_pdf);
                 ("both.pdf", Regular (File false true true "" (Ok [])));
                 ("notes.txt", Regular a_pdf); ("torn.pdf", Regular torn_pdf)])
            [(WARNING, FileDoesNotExist "gone.pdf");
             (WARNING, NoReadPermissionFile "locked.pdf");
             (WARNING, FileIsEmpty "empty.pdf");
             (WARNING, InvalidPdfFile "junk.pdf"
                         (Exn "PdfReadError" "EOF marker not found"));
             (WARNING, PdfHasNoPages "zero.pdf");
             (WARNING, NoReadPermissionFile "both.pdf")])).
Proof. reflexivity. Qed.

(** A directory that cannot be listed yields no candidate, whatever it
    holds. *)
Example discovery_in_unlistable_directory :
  run (find_and_validate_pdf_files "input") []
      (start (disk_with false true true [("a.pdf", Regular a_pdf)]))
  = (Ok [],
     ([], World (disk_with false true true [("a.pdf", Regular a_pdf)])
                [(WARNING, NoPdfFilesFound)])).
Proof. reflexivity. Qed.

(** ** Files put into a directory *)

Lemma put_file_dir fs p f d x :
  lookup_dir fs (parent p) = Some x ->
  lookup_dir (put_file fs p f) d
  = if String.eqb (parent p) d
    then Some (Directory (d_readable x) (d_writable x) (d_searchable x)
                         (assoc_set (name p) (Regular f) (d_entries x)))
    else lookup_dir fs d.
Proof.
  unfold put_file. intros Hx. rewrite Hx. unfold lookup_dir. simpl.
  destruct (String.eqb_spec (parent p) d) as [<-|Hne].
  - apply assoc_set_same.
  - apply assoc_set_other. exact Hne.
Qed.

Lemma put_file_flags fs p f :
  cwd_searchable (put_file fs p f) = cwd_searchable fs
  /\ cwd_writable (put_file fs p f) = cwd_writable fs
  /\ created_mode (put_file fs p f) = created_mode fs.
Proof.
  unfold put_file. destruct (lookup_dir fs (parent p)); repeat split.
Qed.


Lemma lookup_file_searched fs p f :
  lookup_file fs p = Some f ->
  exists x, lookup_dir fs (parent p) = Some x
            /\ cwd_searchable fs && d_searchable x = true.
Proof.
  unfold lookup_file. destruct (lookup_dir fs (parent p)) as [x|]; [|discriminate].
  destruct (cwd_searchable fs && d_searchable x) eqn:Hs; [|discriminate].
  intros _. exists x. split; [reflexivity | exact Hs].
Qed.

Lemma put_file_lookup fs p f x :
  lookup_dir fs (parent p) = Some x ->
  cwd_searchable fs && d_searchable x = true ->
  lookup_file (put_file fs p f) p = Some f.
Proof.
  intros Hx Hs. unfold lookup_file.
  rewrite (put_file_dir _ _ _ _ _ Hx), String.eqb_refl.
  destruct (put_file_flags fs p f) as (-> & _). cbn [d_searchable d_entries].
  rewrite Hs, assoc_set_same. reflexivity.
Qed.

Lemma put_file_lookup_other fs p f q :
  path_eqb q p = false -> lookup_file (put_file fs p f) q = lookup_file fs q.
Proof.
  intros Hne. unfold lookup_file.
  destruct (put_file_flags fs p f) as (-> & _).
  destruct (lookup_dir fs (parent p)) as [x|] eqn:Hx;
    [|unfold put_file; rewrite Hx; reflexivity].
  rewrite (put_file_dir _ _ _ _ _ Hx).
  destruct (String.eqb_spec (parent p) (parent q)) as [Hpar|Hpar];
    [|reflexivity].
  rewrite <- Hpar, Hx. cbn [d_searchable d_entries].
  rewrite assoc_set_other; [reflexivity|].
  intros Hname. unfold path_eqb in Hne.
  rewrite <- Hpar, Hname, !String.eqb_refl in Hne. discriminate.
Qed.

(** After [store_file] the path resolves to a file with the bytes
    written. *)
Lemma store_file_lookup fs p data pdf fs' :
  store_file fs p data pdf = Ok fs' ->
  exists f, lookup_file fs' p = Some f /\ f_data f = data /\ f_pdf f = pdf.
Proof.
  unfold store_file.
  destruct (lookup_dir fs (parent p)) as [x|] eqn:Hx; [|discriminate].
  destruct (cwd_searchable fs && d_searchable x) eqn:Hs; [|discriminate].
  cbn [negb].
  destruct (assoc (name p) (d_entries x)) as [[old|]|].
  - destruct (f_writable old); [|discriminate].
    intros H. inversion H; subst. eexists.
    split; [apply (put_file_lookup _ _ _ _ Hx Hs) | split; reflexivity].
  - discriminate.
  - destruct (d_writable x); [|discriminate].
    intros H. inversion H; subst. eexists.
    split; [apply (put_file_lookup _ _ _ _ Hx Hs) | split; reflexivity].
Qed.

Lemma store_file_lookup_other fs p data pdf fs' q :
  store_file fs p data pdf = Ok fs' -> path_eqb q p = false ->
  lookup_file fs' q = lookup_file fs q.
Proof.
  unfold store_file.
  destruct (lookup_dir fs (parent p)) as [x|] eqn:Hx; [|discriminate].
  destruct (cwd_searchable fs && d_searchable x) eqn:Hs; [|discriminate].
  cbn [negb].
  destruct (assoc (name p) (d_entries x)) as [[old|]|].
  - destruct (f_writable old); [|discriminate].
    intros H Hne. inversion H; subst. apply put_file_lookup_other. exact Hne.
  - discriminate.
  - destruct (d_writable x); [|discriminate].
    intros H Hne. inversion H; subst. apply put_file_lookup_other. exact Hne.
Qed.


(** A copy that returns has left at the destination the bytes and the
    permission bits of the source. *)
Lemma copy2_lookup fs src dst fs' :
  copy2 fs src dst = (Ok tt, fs') ->
  exists f f',
    lookup_file fs src = Some f
    /\ lookup_file fs' dst = Some f'
    /\ f_data f' = f_data f /\ f_pdf f' = f_pdf f
    /\ f_readable f' = f_readable f /\ f_writable f' = f_writable f.
Proof.
  unfold copy2, copyfile.
  destruct (path_eqb src dst) eqn:Hne; [discriminate|].
  destruct (lookup_file fs src) as [f|] eqn:Hsrc; [|discriminate].
  destruct (f_readable f) eqn:Hread; [|discriminate].
  destruct (store_file fs dst (f_data f) (f_pdf f)) as [copied|e] eqn:Hstore;
    [|discriminate].
  destruct (store_file_lookup _ _ _ _ _ Hstore) as (g & Hdst & Hdata & Hpdf).
  unfold copystat.
  rewrite (store_file_lookup_other _ _ _ _ _ _ Hstore Hne), Hsrc, Hdst.
  destruct (f_owned g); [|discriminate].
  intros H. inversion H; subst fs'; clear H.
  destruct (lookup_file_searched _ _ _ Hdst) as (x & Hx & Hs).
  exists f. eexists. split; [reflexivity|].
  split; [apply (put_file_lookup _ _ _ _ Hx Hs)|].
  cbn. auto.
Qed.



Lemma discovery_returned d w valid :
  result_of (run (find_and_validate_pdf_files d) [] w) = Ok valid ->
  discovery_error (w_fs w) d = None
  /\ filter (is_valid (w_fs w)) (glob_pdf (w_fs w) d) = valid.
Proof.
  rewrite find_and_validate_run. cbv zeta.
  destruct (discovery_error (w_fs w) d); [discriminate|].
  unfold result_of. simpl. intros H. inversion H. auto.
Qed.

(** C5. When the log file opens, the codec is importable, the
    directories are in order and discovery returns no document, the run
    ends at the [return] that follows the ERROR record 'No valid PDF files
    found': the filesystem is the one directory validation left, every
    directory that was there is as it was, one that was not is empty if
    it is there now, no enumeration has gained an entry since the run
    began, and nothing depends on what a write would do. *)
Theorem no_valid_document_aborts write_pdf env w w1 :
  debug_log_opens env (w_fs w) = true ->
  pypdf2_importable env = true ->
  run (validate_directories "input" "output") tt w = (Ok true, (tt, w1)) ->
  result_of (run (find_and_validate_pdf_files "input") [] w1) = Ok [] ->
  result_of (run (merge_pdfs write_pdf env) tt w) = Ok ExitNoValidFiles
  /\ (exists lg, log_of (run (merge_pdfs write_pdf env) tt w)
                 = lg ++ [(ERROR, NoValidPdfFiles)])
  /\ fs_of (run (merge_pdfs write_pdf env) tt w) = w_fs w1
  /\ (forall d, listing (fs_of (run (merge_pdfs write_pdf env) tt w)) d
                = listing (w_fs w) d)
  /\ (forall write_pdf',
        run (merge_pdfs write_pdf' env) tt w = run (merge_pdfs write_pdf env) tt w)
  /\ (forall d x, lookup_dir (w_fs w) d = Some x ->
                  lookup_dir (fs_of (run (merge_pdfs write_pdf env) tt w)) d = Some x)
  /\ (forall d x, lookup_dir (w_fs w) d = None ->
                  lookup_dir (fs_of (run (merge_pdfs write_pdf env) tt w)) d = Some x ->
                  d_entries x = []).
Proof.
  intros Hlog Hreq Hdirs Hfind.
  destruct (discovery_returned _ _ _ Hfind) as [Herr Hnone].
  assert (Hrun : forall wp,
    run (merge_pdfs wp env) tt w
    = (Ok ExitNoValidFiles,
       (tt, World (w_fs w1)
              ((w_log w1 ++ discovery_warnings (w_fs w1) "input")
               ++ [(ERROR, NoValidPdfFiles)])))).
  { intros wp. rewrite (merge_pdfs_run wp _ _ _ Hlog Hreq Hdirs). cbv zeta.
    rewrite Herr, Hnone. reflexivity. }
  destruct (validate_directories_spec "input" "output" tt w
              (debug_log_needs_search _ _ Hlog))
    as (b & w' & Hdirs' & _ & _ & Hold & Hnew & _).
  rewrite Hdirs in Hdirs'. inversion Hdirs'; subst b w'; clear Hdirs'.
  rewrite !Hrun. unfold fs_of. cbn [snd w_fs].
  split; [reflexivity|].
  split; [eexists; reflexivity|]. split; [reflexivity|]. split.
  { apply (kept_directories_keep_listing _ _ (fresh_directory (w_fs w)) Hold);
      [|reflexivity].
    intros d Hd. destruct (Hnew d Hd) as [H|[_ H]]; auto. }
  split; [intros wp; apply Hrun|]. split; [exact Hold|].
  intros d x Hd Hx. destruct (Hnew d Hd) as [H|[_ H]]; rewrite H in Hx.
  - discriminate.
  - inversion Hx. reflexivity.
Qed.

Lemma no_valid_document_aborts_witness :
  result_of (run (merge_pdfs posix_write clock) tt
                 (start (disk [("zero.pdf", zero_pdf); ("notes.txt", a_pdf)] [])))
  = Ok ExitNoValidFiles.
Proof.
  exact (proj1 (no_valid_document_aborts posix_write clock
           (start (disk [("zero.pdf", zero_pdf); ("notes.txt", a_pdf)] []))
           (start (disk [("zero.pdf", zero_pdf); ("notes.txt", a_pdf)] []))
           eq_refl eq_refl eq_refl eq_refl)).
Defined.

(** C4, as the code has it.  When discovery returns exactly one document,
    the run ends at the [return] of the single-file branch, whatever a
    write would do: no merge takes place and no merge result exists.  The
    run calls [shutil.copy2] from the document to [output/<its name>] and
    the filesystem is the one the call leaves; if the copy returns, the
    destination holds a file with the bytes and the permission bits of
    the document, under the same name; if the copy raises, the failure is
    logged as an ERROR and the run returns all the same. *)
Theorem single_document_is_copied_or_logged write_pdf env w w1 p :
  debug_log_opens env (w_fs w) = true ->
  pypdf2_importable env = true ->
  run (validate_directories "input" "output") tt w = (Ok true, (tt, w1)) ->
  result_of (run (find_and_validate_pdf_files "input") [] w1) = Ok [p] ->
  result_of (run (merge_pdfs write_pdf env) tt w) = Ok ExitSingleFile
  /\ (forall write_pdf',
        run (merge_pdfs write_pdf' env) tt w = run (merge_pdfs write_pdf env) tt w)
  /\ fs_of (run (merge_pdfs write_pdf env) tt w)
     = snd (copy2 (w_fs w1) p (joinpath "output" (name p)))
  /\ match fst (copy2 (w_fs w1) p (joinpath "output" (name p))) with
     | Ok _ =>
         exists f f',
           lookup_file (w_fs w1) p = Some f
           /\ lookup_file (fs_of (run (merge_pdfs write_pdf env) tt w))
                          (joinpath "output" (name p)) = Some f'
           /\ f_data f' = f_data f /\ f_pdf f' = f_pdf f
           /\ f_readable f' = f_readable f /\ f_writable f' = f_writable f
     | Raise e =>
         In (ERROR, FailedToCopy e) (log_of (run (merge_pdfs write_pdf env) tt w))
     end.
Proof.
  intros Hlog Hreq Hdirs Hfind.
  destruct (discovery_returned _ _ _ Hfind) as [Herr Hone].
  assert (Hrun : forall wp,
    run (merge_pdfs wp env) tt w
    = match copy2 (w_fs w1) p (joinpath "output" (name p)) with
      | (Ok _, fs') =>
          (Ok ExitSingleFile,
           (tt, World fs' ((w_log w1 ++ discovery_warnings (w_fs w1) "input")
                           ++ [(WARNING, OnlyOnePdfFile)])))
      | (Raise e, fs') =>
          (Ok ExitSingleFile,
           (tt, World fs'
                  ((w_log w1 ++ discovery_warnings (w_fs w1) "input")
                   ++ [(WARNING, OnlyOnePdfFile); (ERROR, FailedToCopy e)])))
      end).
  { intros wp. rewrite (merge_pdfs_run wp _ _ _ Hlog Hreq Hdirs). cbv zeta.
    rewrite Herr, Hone. reflexivity. }
  rewrite !Hrun.
  destruct (copy2 (w_fs w1) p (joinpath "output" (name p))) as [[[]|e] fs'] eqn:Hcopy.
  - split; [reflexivity|]. split; [intros wp; rewrite Hrun; reflexivity|].
    split; [reflexivity|]. unfold fs_of; simpl.
    apply (copy2_lookup _ _ _ _ Hcopy).
  - split; [reflexivity|]. split; [intros wp; rewrite Hrun; reflexivity|].
    split; [reflexivity|]. unfold log_of; simpl.
    apply in_or_app. right. right. left. reflexivity.
Qed.

Lemma single_document_is_copied_or_logged_witness :
  result_of (run (merge_pdfs posix_write clock) tt
                 (start (disk [("a.pdf", a_pdf); ("notes.txt", B_pdf)] [])))
  = Ok ExitSingleFile
  /\ lookup_file (fs_of (run (merge_pdfs posix_write clock) tt
                             (start (disk [("a.pdf", a_pdf); ("notes.txt", B_pdf)] []))))
                 (joinpath "output" "a.pdf")
     = Some a_pdf.
Proof.
  split; [|reflexivity].
  exact (proj1 (single_document_is_copied_or_logged posix_write clock
           (start (disk [("a.pdf", a_pdf); ("notes.txt", B_pdf)] []))
           (start (disk [("a.pdf", a_pdf); ("notes.txt", B_pdf)] []))
           (joinpath "input" "a.pdf")
           eq_refl eq_refl eq_refl eq_refl)).
Defined.

(** C4 as stated fails here: discovery returns the one document
    [input/a.pdf], the copy raises PermissionError, the run logs the error
    and returns, and [output/a.pdf] still holds the older bytes, not those
    of the document. *)
Lemma single_document_not_copied_over_readonly_file :
  result_of (run (find_and_validate_pdf_files "input") []
                 (start (disk [("a.pdf", a_pdf)] [("a.pdf", stale_copy)])))
  = Ok [joinpath "input" "a.pdf"]
  /\ result_of (run (merge_pdfs posix_write clock) tt
                    (start (disk [("a.pdf", a_pdf)] [("a.pdf", stale_copy)])))
     = Ok ExitSingleFile
  /\ lookup_file (fs_of (run (merge_pdfs posix_write clock) tt
                             (start (disk [("a.pdf", a_pdf)] [("a.pdf", stale_copy)]))))
                 (joinpath "output" "a.pdf")
     = Some stale_copy
  /\ lookup_file (disk [("a.pdf", a_pdf)] [("a.pdf", stale_copy)])
                 (joinpath "input" "a.pdf")
     = Some a_pdf
  /\ f_data stale_copy <> f_data a_pdf
  /\ log_of (run (merge_pdfs posix_write clock) tt
                 (start (disk [("a.pdf", a_pdf)] [("a.pdf", stale_copy)])))
     = [(WARNING, OnlyOnePdfFile);
        (ERROR, FailedToCopy (PermissionError "output/a.pdf"))].
Proof.
  repeat split. discriminate.
Qed.

(** A copy can also raise after the bytes have gone over: [output/a.pdf]
    is there, writable for the process and owned by someone else, so
    [copyfile] succeeds and [copystat] is refused.  The error is logged
    and the destination holds the bytes of the document. *)
Example single_document_copied_before_copy_raises :
  result_of (run (merge_pdfs posix_write clock) tt
                 (start (disk [("a.pdf", a_pdf)] [("a.pdf", foreign_copy)])))
  = Ok ExitSingleFile
  /\ option_map f_data
       (lookup_file (fs_of (run (merge_pdfs posix_write clock) tt
                               (start (disk [("a.pdf", a_pdf)] [("a.pdf", foreign_copy)]))))
                    (joinpath "output" "a.pdf"))
     = Some (f_data a_pdf)
  /\ log_of (run (merge_pdfs posix_write clock) tt
                 (start (disk [("a.pdf", a_pdf)] [("a.pdf", foreign_copy)])))
     = [(WARNING, OnlyOnePdfFile);
        (ERROR, FailedToCopy NotPermittedError)].
Proof. repeat split. Qed.

(* ================================================================== *)
(** * Further properties of the program *)
(* ================================================================== *)


(** A umask that takes the owner's read permission away: both directories
    are created, and the answer is False for the input directory that
    cannot be read. *)
Example validate_directories_under_umask :
  run (validate_directories "input" "output") tt
      (start (Filesystem true true (Mode false true true) []))
  = (Ok false,
     (tt, World (Filesystem true true (Mode false true true)
                   [("input", Directory false true true []);
                    ("output", Directory false true true [])])
                [(ERROR, NoReadPermissionDir "input")])).
Proof. reflexivity. Qed.

(** X2. [validate_directories] changes nothing that is there: every
    directory that existed keeps its permissions and entries, the only
    directories that can appear are the two it was given, created empty,
    no enumeration gains or loses an entry, and when both directories
    exist already the filesystem is left exactly as it was, whatever the
    answer.  It answers, rather than raises, whenever the working
    directory can be searched. *)
Theorem validate_directories_keeps_what_is_there {L} input_dir output_dir (l : L) w :
  exists o w',
    run (validate_directories input_dir output_dir) l w = (o, (l, w'))
    /\ (cwd_searchable (w_fs w) = true -> exists b, o = Ok b)
    /\ (forall d x, lookup_dir (w_fs w) d = Some x -> lookup_dir (w_fs w') d = Some x)
    /\ (forall d, lookup_dir (w_fs w) d = None ->
                  lookup_dir (w_fs w') d = None
                  \/ ((d = input_dir \/ d = output_dir) /\
                      lookup_dir (w_fs w') d = Some (fresh_directory (w_fs w))))
    /\ (forall d, listing (w_fs w') d = listing (w_fs w) d)
    /\ (dir_exists (w_fs w) input_dir = true ->
        dir_exists (w_fs w) output_dir = true -> w_fs w' = w_fs w).
Proof.
  destruct (cwd_searchable (w_fs w)) eqn:Hs.
  - destruct (validate_directories_spec input_dir output_dir l w Hs)
      as (b & w' & Hrun & _ & _ & Hold & Hnew & Hsame & _).
    exists (Ok b), w'. split; [exact Hrun|]. split; [intros _; exists b; reflexivity|].
    split; [exact Hold|]. split; [exact Hnew|]. split; [|exact Hsame].
    apply (kept_directories_keep_listing _ _ (fresh_directory (w_fs w)) Hold);
      [|reflexivity].
    intros d Hd. destruct (Hnew d Hd) as [H|[_ H]]; auto.
  - eexists _, w. split; [apply validate_directories_raises; exact Hs|].
    split; [discriminate|]. repeat split; auto.
Qed.

(** ** What lets an exception out of the run *)


Lemma glob_of_listing fs fs' d suffix :
  listing fs' d = listing fs d -> glob fs' d suffix = glob fs d suffix.
Proof. unfold glob. intros ->. reflexivity. Qed.





(** ** What the run leaves alone *)





(** ** What discovery returns, and the merge the run performs *)

Lemma glob_pdf_In fs d p :
  In p (glob_pdf fs d) <->
  parent p = d /\ ends_with ".pdf" (name p) = true
  /\ In (name p) (map fst (listing fs d)).
Proof.
  unfold glob_pdf, glob. rewrite in_map_iff. split.
  - intros ([n f] & <- & Hin). apply filter_In in Hin. destruct Hin as [Hin Hsuf].
    simpl in *. repeat split; [exact Hsuf|].
    apply in_map_iff. exists (n, f). split; [reflexivity | exact Hin].
  - intros (Hpar & Hsuf & Hin). apply in_map_iff in Hin.
    destruct Hin as ([n f] & Hn & Hin). simpl in Hn. exists (n, f). split.
    + destruct p as [pp pn]. simpl in *. subst. reflexivity.
    + apply filter_In. split; [exact Hin|]. simpl. rewrite Hn. exact Hsuf.
Qed.

Lemma valid_has_bytes fs p : is_valid fs p = true -> 1 <= byte_size fs p.
Proof.
  unfold is_valid, predicates. simpl. rewrite !andb_true_iff.
  intros (_ & _ & H & _). unfold holds, complaint in H.
  destruct (byte_size fs p); [discriminate | lia].
Qed.

Lemma StronglySorted_filter {A} (R : A -> A -> Prop) (f : A -> bool) l :
  StronglySorted R l -> StronglySorted R (filter f l).
Proof.
  induction 1 as [|x l Hs IH Hall]; simpl; [constructor|].
  destruct (f x); [|exact IH].
  constructor; [exact IH|].
  apply Forall_forall. intros y Hy. apply filter_In in Hy.
  rewrite Forall_forall in Hall. apply Hall. apply Hy.
Qed.

Lemma StronglySorted_map {A B} (R : A -> A -> Prop) (Q : B -> B -> Prop) (g : A -> B) l :
  (forall x y, R x y -> Q (g x) (g y)) ->
  StronglySorted R l -> StronglySorted Q (map g l).
Proof.
  intros HRQ. induction 1 as [|x l Hs IH Hall]; simpl; constructor; [exact IH|].
  apply Forall_forall. intros y Hy. apply in_map_iff in Hy.
  destruct Hy as (z & <- & Hz). rewrite Forall_forall in Hall. apply HRQ, Hall, Hz.
Qed.


(** X7. When the run ends in a successful merge, at least two valid
    documents were discovered and [total_files] is their number; the
    output is named [merged_pdf_<timestamp>.pdf]; [file_info] ascends in
    the lower-cased filename; and each of its entries belongs to a
    discovered document of the input directory and counts at least one
    page and one byte. *)
Theorem run_merges_discovered_documents_in_name_order
        write_pdf env w out total files size info :
  result_of (run (merge_pdfs write_pdf env) tt w)
  = Ok (ExitMerged (Success out total files size info)) ->
  exists w1,
    run (validate_directories "input" "output") tt w = (Ok true, (tt, w1))
    /\ 2 <= files
    /\ files = length (filter (is_valid (w_fs w1)) (glob_pdf (w_fs w1) "input"))
    /\ out = ("merged_pdf_" ++ timestamp env ++ ".pdf")%string
    /\ StronglySorted entry_le info
    /\ Forall (fun e =>
                 1 <= pages e /\ 1 <= file_size e
                 /\ In (joinpath "input" (filename e))
                       (filter (is_valid (w_fs w1)) (glob_pdf (w_fs w1) "input")))
              info.
Proof.
  intros Hrun.
  destruct (merge_pdfs_reaches_discovery write_pdf env w)
    as [H | [H | [H | (Hlog & Hreq & w1 & Hdirs)]]];
    try congruence; try (rewrite Hrun in H; discriminate H).
  exists w1. split; [exact Hdirs|].
  rewrite (merge_pdfs_run _ _ _ _ Hlog Hreq Hdirs) in Hrun. cbv zeta in Hrun.
  destruct (discovery_error (w_fs w1) "input"); [discriminate|].
  destruct (filter (is_valid (w_fs w1)) (glob_pdf (w_fs w1) "input"))
    as [|p1 [|p2 rest]] eqn:Hvalid; [discriminate| |].
  - destruct (copy2 _ _ _) as [[[]|e] fs']; discriminate.
  - destruct (result_of (run (merge_pdf_files write_pdf _ _) _ _))
      as [result|e] eqn:Hres; [|discriminate].
    unfold result_of in Hrun at 1. simpl in Hrun.
    inversion Hrun; subst result; clear Hrun.
    pose proof Hres as Hout.
    apply merge_success_fields in Hres. destruct Hres as (_ & -> & ->).
    simpl w_fs.
    assert (Hperm : Permutation (p1 :: p2 :: rest)
                                (sort_files_by_preference (p1 :: p2 :: rest)))
      by apply sorted_perm.
    split; [rewrite <- (Permutation_length Hperm); simpl; lia|].
    split; [rewrite <- (Permutation_length Hperm); reflexivity|].
    split.
    { rewrite merge_pdf_files_run in Hout. cbv zeta in Hout.
      destruct (write_pdf _ _ _) as [[[]|e] fs']; [|discriminate].
      destruct (path_exists fs' (output_path env)); [|discriminate].
      unfold result_of in Hout. simpl in Hout. inversion Hout. reflexivity. }
    split.
    { unfold recorded. apply (StronglySorted_map (key_le name_key)).
      - intros x y Hxy. exact Hxy.
      - apply StronglySorted_filter. apply (sorted_sorted name_key). }
    apply Forall_forall. intros entry Hentry.
    apply in_map_iff in Hentry. destruct Hentry as (p & <- & Hp).
    apply filter_In in Hp. destruct Hp as [Hp _].
    apply (Permutation_in _ (Permutation_sym Hperm)) in Hp.
    assert (Hin : In p (filter (is_valid (w_fs w1)) (glob_pdf (w_fs w1) "input")))
      by (rewrite Hvalid; exact Hp).
    apply filter_In in Hin. destruct Hin as [Hglob Hok].
    simpl. split; [apply valid_has_pages; exact Hok|].
    split; [apply valid_has_bytes; exact Hok|].
    apply glob_pdf_In in Hglob. destruct Hglob as (Hpar & _).
    destruct p as [pp pn]. simpl in *. subst pp. exact Hp.
Qed.

Lemma run_merges_discovered_documents_in_name_order_witness :
  exists w1,
    run (validate_directories "input" "output") tt
        (start (disk [("zero.pdf", zero_pdf); ("B.pdf", B_pdf); ("a.pdf", a_pdf)] []))
    = (Ok true, (tt, w1))
    /\ 2 <= 2
    /\ 2 = length (filter (is_valid (w_fs w1)) (glob_pdf (w_fs w1) "input"))
    /\ "merged_pdf_20240101_120000.pdf"
       = ("merged_pdf_" ++ timestamp clock ++ ".pdf")%string
    /\ StronglySorted entry_le [FileEntry "a.pdf" 2 6; FileEntry "B.pdf" 1 6]
    /\ Forall (fun e =>
                 1 <= pages e /\ 1 <= file_size e
                 /\ In (joinpath "input" (filename e))
                       (filter (is_valid (w_fs w1)) (glob_pdf (w_fs w1) "input")))
              [FileEntry "a.pdf" 2 6; FileEntry "B.pdf" 1 6].
Proof.
  exact (run_merges_discovered_documents_in_name_order posix_write clock
           (start (disk [("zero.pdf", zero_pdf); ("B.pdf", B_pdf); ("a.pdf", a_pdf)] []))
           "merged_pdf_20240101_120000.pdf" 3 2 10
           [FileEntry "a.pdf" 2 6; FileEntry "B.pdf" 1 6] eq_refl).
Defined.

(** ** More on the order of merging *)

Section OrderFacts.

Context {A : Type} (key : A -> string).

Lemma filter_key_perm k (l l' : list A) :
  Permutation l l' ->
  Permutation (filter (has_key key k) l) (filter (has_key key k) l').
Proof.
  induction 1 as [|x l l' Hp IH|x y l|l l' l'' H1 IH1 H2 IH2]; simpl.
  - constructor.
  - destruct (has_key key k x); [constructor|]; exact IH.
  - destruct (has_key key k x), (has_key key k y);
      try reflexivity. apply perm_swap.
  - etransitivity; eassumption.
Qed.

Lemma filter_key_short k (l : list A) :
  NoDup (map key l) -> length (filter (has_key key k) l) <= 1.
Proof.
  induction l as [|x l IH]; simpl; intros Hnd; [lia|].
  inversion Hnd as [|? ? Hnotin Hnd']; subst.
  destruct (has_key key k x) eqn:Hx; simpl; [|apply IH; exact Hnd'].
  assert (Hnone : filter (has_key key k) l = []).
  { destruct (filter (has_key key k) l) as [|y rest] eqn:Hf; [reflexivity|].
    exfalso. apply Hnotin.
    assert (Hy : In y (filter (has_key key k) l)) by (rewrite Hf; left; reflexivity).
    apply filter_In in Hy. destruct Hy as [Hy Hky].
    unfold has_key in *. apply String.eqb_eq in Hx, Hky.
    rewrite Hx, <- Hky. apply in_map. exact Hy. }
  rewrite Hnone. simpl. lia.
Qed.

Lemma short_perm_eq (l l' : list A) :
  Permutation l l' -> length l <= 1 -> l = l'.
Proof.
  intros Hp Hlen. destruct l as [|x [|y l]]; simpl in Hlen; try lia.
  - apply Permutation_nil in Hp. congruence.
  - apply Permutation_length_1_inv in Hp. congruence.
Qed.

(** With pairwise different keys the result of a stable ascending sort
    depends on which elements are given, not on their order. *)
Lemma sorted_of_permutation (l l' : list A) :
  Permutation l l' -> NoDup (map key l) -> sorted key l = sorted key l'.
Proof.
  intros Hp Hnd. apply (stable_sort_unique key).
  - apply sorted_sorted.
  - apply sorted_sorted.
  - intros k. rewrite !sorted_stable.
    apply short_perm_eq; [apply filter_key_perm; exact Hp|].
    apply filter_key_short. exact Hnd.
Qed.

(** A list that ascends already is returned as it is. *)
Lemma sorted_of_sorted (l : list A) :
  StronglySorted (key_le key) l -> sorted key l = l.
Proof.
  intros Hs. apply (stable_sort_unique key).
  - apply sorted_sorted.
  - exact Hs.
  - intros k. apply sorted_stable.
Qed.

End OrderFacts.

(** X9. When no two documents have the same lower-cased filename, the
    order of merging depends only on which documents were discovered, not
    on the order in which the filesystem enumerated them. *)
Theorem sort_files_by_preference_ignores_discovery_order pdf_files pdf_files' :
  Permutation pdf_files pdf_files' ->
  NoDup (map (fun x => lower (name x)) pdf_files) ->
  sort_files_by_preference pdf_files = sort_files_by_preference pdf_files'.
Proof. apply sorted_of_permutation. Qed.

Lemma sort_files_by_preference_ignores_discovery_order_witness :
  sort_files_by_preference (map (joinpath "input") ["B.pdf"; "a.pdf"; "C.pdf"])
  = sort_files_by_preference (map (joinpath "input") ["C.pdf"; "B.pdf"; "a.pdf"]).
Proof.
  refine (sort_files_by_preference_ignores_discovery_order
            (map (joinpath "input") ["B.pdf"; "a.pdf"; "C.pdf"])
            (map (joinpath "input") ["C.pdf"; "B.pdf"; "a.pdf"]) _ _).
  - simpl. apply Permutation_sym. apply (Permutation_cons_app [_; _] []).
    reflexivity.
  - simpl. repeat constructor; simpl; intuition discriminate.
Defined.

(** X10. Documents given in ascending order of lower-cased filename are
    returned in the order given; so sorting what [sort_files_by_preference]
    returned changes nothing. *)
Theorem sort_files_by_preference_fixes_sorted pdf_files :
  (StronglySorted (key_le name_key) pdf_files ->
   sort_files_by_preference pdf_files = pdf_files)
  /\ sort_files_by_preference (sort_files_by_preference pdf_files)
     = sort_files_by_preference pdf_files.
Proof.
  split.
  - apply (sorted_of_sorted name_key).
  - apply (sorted_of_sorted name_key). apply (sorted_sorted name_key).
Qed.

(** ** Accounting of a merge *)





(** X12. The writer never holds fewer pages than [total_pages] counts:
    what is handed to the write is [total_pages] pages plus the pages
    appended from documents before they failed, and exactly [total_pages]
    pages when every failure came before a first page was appended. *)
Theorem total_pages_at_most_pages_written write_pdf pdf_files output_file w :
  total_pages (locals_of (run (merge_pdf_files write_pdf pdf_files output_file)
                              fresh_locals w))
  <= length (writer (locals_of (run (merge_pdf_files write_pdf pdf_files output_file)
                                    fresh_locals w)))
  /\ length (writer (locals_of (run (merge_pdf_files write_pdf pdf_files output_file)
                                    fresh_locals w)))
     = total_pages (locals_of (run (merge_pdf_files write_pdf pdf_files output_file)
                                   fresh_locals w))
       + stray_pages (w_fs w) pdf_files
  /\ ((forall p, In p pdf_files -> merges_ok (w_fs w) p = false ->
                 pages_taken (w_fs w) p = []) ->
      length (writer (locals_of (run (merge_pdf_files write_pdf pdf_files output_file)
                                     fresh_locals w)))
      = total_pages (locals_of (run (merge_pdf_files write_pdf pdf_files output_file)
                                    fresh_locals w))).
Proof.
  rewrite merge_locals_run. cbn [writer total_pages].
  rewrite written_page_count. split; [lia|]. split; [reflexivity|].
  intros Hwhole. rewrite <- written_page_count.
  apply written_page_count_when_failures_are_whole. exact Hwhole.
Qed.

Lemma accumulated_app fs l1 l2 :
  accumulated fs (l1 ++ l2) = accumulated fs l1 ++ accumulated fs l2.
Proof. unfold accumulated. apply flat_map_app. Qed.

(** X13. Each document contributes to a merge independently of the
    documents around it: merging one list after another leaves in the
    writer, in [total_pages] and in [file_info] the concatenation and the
    sum of what merging each list alone leaves; a document given twice is
    appended and counted twice. *)
Theorem merge_of_concatenation write_pdf first second output_file w :
  writer (locals_of (run (merge_pdf_files write_pdf (first ++ second) output_file)
                         fresh_locals w))
  = writer (locals_of (run (merge_pdf_files write_pdf first output_file)
                           fresh_locals w))
    ++ writer (locals_of (run (merge_pdf_files write_pdf second output_file)
                              fresh_locals w))
  /\ total_pages (locals_of (run (merge_pdf_files write_pdf (first ++ second) output_file)
                                 fresh_locals w))
     = total_pages (locals_of (run (merge_pdf_files write_pdf first output_file)
                                   fresh_locals w))
       + total_pages (locals_of (run (merge_pdf_files write_pdf second output_file)
                                     fresh_locals w))
  /\ file_info (locals_of (run (merge_pdf_files write_pdf (first ++ second) output_file)
                               fresh_locals w))
     = file_info (locals_of (run (merge_pdf_files write_pdf first output_file)
                                 fresh_locals w))
       ++ file_info (locals_of (run (merge_pdf_files write_pdf second output_file)
                                    fresh_locals w)).
Proof.
  rewrite !merge_locals_run. cbn [writer total_pages file_info].
  rewrite accumulated_app, counted_app, recorded_app. repeat split.
Qed.

(** ** How a failed merge is reported *)




(** ** Running again on unchanged input *)

Lemma lookup_file_of_listing fs p :
  dir_access_R fs (parent p) = true ->
  dir_searchable fs (parent p) = true ->
  lookup_file fs p = regular (assoc (name p) (listing fs (parent p))).
Proof.
  unfold dir_access_R, dir_searchable, lookup_file, listing.
  destruct (lookup_dir fs (parent p)) as [x|];
    [|rewrite andb_false_r; discriminate].
  intros HR HS. apply andb_true_iff in HR. destruct HR as [-> ->].
  rewrite HS. reflexivity.
Qed.

(** What the program reads about a document depends on the file its
    path resolves to only. *)
Lemma same_file_same_document fs fs' p :
  lookup_file fs p = lookup_file fs' p ->
  is_valid fs p = is_valid fs' p
  /\ merges_ok fs p = merges_ok fs' p
  /\ entry_of fs p = entry_of fs' p
  /\ pages_taken fs p = pages_taken fs' p.
Proof.
  intros Hfile.
  unfold is_valid, predicates, forallb, holds, complaint, merges_ok, merge_failure,
    entry_of, pages_taken, page_count, byte_size, path_exists, access_R, PdfReader.
  rewrite Hfile. destruct (lookup_file fs' p) as [f|]; repeat split.
Qed.

Lemma filter_ext_in' {A} (f g : A -> bool) l :
  (forall x, In x l -> f x = g x) -> filter f l = filter g l.
Proof.
  induction l as [|x l IH]; simpl; intros H; [reflexivity|].
  rewrite (H x (or_introl eq_refl)), IH by (intros y Hy; apply H; right; exact Hy).
  reflexivity.
Qed.

(** Where discovery returns, the files of the candidates are those of the
    enumeration. *)
Lemma candidate_of_listing fs d p :
  dir_access_R fs d = true -> discovery_error fs d = None ->
  In p (glob_pdf fs d) ->
  lookup_file fs p = regular (assoc (name p) (listing fs d)).
Proof.
  intros HR Herr Hp.
  pose proof (glob_parent _ _ _ _ Hp) as Hpar.
  rewrite <- Hpar in HR |- *. apply lookup_file_of_listing; [exact HR|].
  rewrite Hpar. unfold discovery_error in Herr.
  destruct (cwd_searchable fs); [|discriminate Herr]. cbn [negb] in Herr.
  destruct (glob_pdf fs d) as [|c cs]; [destruct Hp|].
  destruct (dir_searchable fs d); [reflexivity | discriminate Herr].
Qed.

Lemma same_listing_same_files fs fs' d p :
  listing fs d = listing fs' d ->
  dir_access_R fs d = true -> dir_access_R fs' d = true ->
  discovery_error fs d = None -> discovery_error fs' d = None ->
  In p (glob_pdf fs d) ->
  lookup_file fs p = lookup_file fs' p.
Proof.
  intros Hsame HR HR' Herr Herr' Hp.
  rewrite (candidate_of_listing fs d p HR Herr Hp).
  rewrite (candidate_of_listing fs' d p HR' Herr'); [rewrite Hsame; reflexivity|].
  unfold glob_pdf in *. rewrite (glob_of_listing fs fs' d ".pdf" (eq_sym Hsame)).
  exact Hp.
Qed.

Lemma same_listing_same_discovery fs fs' d :
  listing fs d = listing fs' d ->
  dir_access_R fs d = true -> dir_access_R fs' d = true ->
  discovery_error fs d = None -> discovery_error fs' d = None ->
  filter (is_valid fs) (glob_pdf fs d) = filter (is_valid fs') (glob_pdf fs' d).
Proof.
  intros Hsame HR HR' Herr Herr'.
  assert (Hglob : glob_pdf fs' d = glob_pdf fs d)
    by (apply glob_of_listing; symmetry; exact Hsame).
  rewrite Hglob. apply filter_ext_in'. intros p Hp.
  apply same_file_same_document.
  apply (same_listing_same_files fs fs' d p Hsame HR HR' Herr Herr' Hp).
Qed.

Lemma same_files_same_merge fs fs' pdf_files :
  (forall p, In p pdf_files -> lookup_file fs p = lookup_file fs' p) ->
  counted fs pdf_files = counted fs' pdf_files
  /\ recorded fs pdf_files = recorded fs' pdf_files
  /\ accumulated fs pdf_files = accumulated fs' pdf_files.
Proof.
  intros Hfiles.
  assert (Hdoc : forall p, In p pdf_files ->
                   merges_ok fs p = merges_ok fs' p
                   /\ entry_of fs p = entry_of fs' p
                   /\ pages_taken fs p = pages_taken fs' p).
  { intros p Hp. apply same_file_same_document. apply Hfiles. exact Hp. }
  assert (Hrec : recorded fs pdf_files = recorded fs' pdf_files).
  { unfold recorded. rewrite (filter_ext_in' (merges_ok fs) (merges_ok fs'))
      by (intros p Hp; apply Hdoc; exact Hp).
    apply map_ext_in. intros p Hp. apply filter_In in Hp. apply Hdoc, Hp. }
  split; [rewrite <- !pages_of_recorded, Hrec; reflexivity|].
  split; [exact Hrec|].
  unfold accumulated. clear Hrec Hfiles.
  induction pdf_files as [|p rest IH]; simpl; [reflexivity|].
  rewrite IH by (intros q Hq; apply Hdoc; right; exact Hq).
  destruct (Hdoc p (or_introl eq_refl)) as (_ & _ & ->). reflexivity.
Qed.

(** What a validation that said yes has established for discovery. *)
Lemma validated_input {L} input_dir output_dir (l : L) w w1 :
  cwd_searchable (w_fs w) = true ->
  run (validate_directories input_dir output_dir) l w = (Ok true, (l, w1)) ->
  dir_access_R (w_fs w1) input_dir = true
  /\ forall d, listing (w_fs w1) d = listing (w_fs w) d.
Proof.
  intros Hs Hdirs.
  destruct (validate_directories_spec input_dir output_dir l w Hs)
    as (b & w' & Hrun & _ & Hpost & Hold & Hnew & _).
  rewrite Hdirs in Hrun. inversion Hrun; subst b w'; clear Hrun.
  split; [apply Hpost; reflexivity|].
  apply (kept_directories_keep_listing _ _ (fresh_directory (w_fs w)) Hold);
    [|reflexivity].
  intros d Hd. destruct (Hnew d Hd) as [H|[_ H]]; auto.
Qed.

(** X15. Two runs that find the same entries in the input directory and
    both end in a successful merge report the same [total_pages], the
    same [total_files] and the same [file_info], in the same order,
    whatever their timestamps, the rest of the filesystem and the way they
    write. *)
Theorem runs_on_same_input_agree
        write_pdf write_pdf' env env' w w'
        out total files size info out' total' files' size' info' :
  listing (w_fs w) "input" = listing (w_fs w') "input" ->
  result_of (run (merge_pdfs write_pdf env) tt w)
  = Ok (ExitMerged (Success out total files size info)) ->
  result_of (run (merge_pdfs write_pdf' env') tt w')
  = Ok (ExitMerged (Success out' total' files' size' info')) ->
  total = total' /\ files = files' /\ info = info'.
Proof.
  intros Hsame Hrun Hrun'.
  destruct (merge_pdfs_reaches_discovery write_pdf env w)
    as [H | [H | [H | (Hlog & Hreq & w1 & Hdirs)]]];
    try congruence; try (rewrite Hrun in H; discriminate H).
  destruct (merge_pdfs_reaches_discovery write_pdf' env' w')
    as [H | [H | [H | (Hlog' & Hreq' & w1' & Hdirs')]]];
    try congruence; try (rewrite Hrun' in H; discriminate H).
  destruct (validated_input _ _ _ _ _ (debug_log_needs_search _ _ Hlog) Hdirs)
    as [HR Hkeep].
  destruct (validated_input _ _ _ _ _ (debug_log_needs_search _ _ Hlog') Hdirs')
    as [HR' Hkeep'].
  assert (Hsame1 : listing (w_fs w1) "input" = listing (w_fs w1') "input")
    by (rewrite Hkeep, Hkeep'; exact Hsame).
  rewrite (merge_pdfs_run _ _ _ _ Hlog Hreq Hdirs) in Hrun.
  rewrite (merge_pdfs_run _ _ _ _ Hlog' Hreq' Hdirs') in Hrun'. cbv zeta in *.
  destruct (discovery_error (w_fs w1) "input") eqn:Herr; [discriminate|].
  destruct (discovery_error (w_fs w1') "input") eqn:Herr'; [discriminate|].
  rewrite <- (same_listing_same_discovery _ _ _ Hsame1 HR HR' Herr Herr') in Hrun'.
  destruct (filter (is_valid (w_fs w1)) (glob_pdf (w_fs w1) "input"))
    as [|p1 [|p2 rest]] eqn:Hvalid; [discriminate| |].
  - destruct (copy2 _ _ _) as [[[]|e] fs']; discriminate.
  - destruct (result_of (run (merge_pdf_files write_pdf _ _) _ _))
      as [result|e] eqn:Hres; [|discriminate].
    destruct (result_of (run (merge_pdf_files write_pdf' _ _) _ _))
      as [result'|e'] eqn:Hres'; [|discriminate].
    unfold result_of in Hrun at 1, Hrun' at 1. simpl in Hrun, Hrun'.
    inversion Hrun; subst result; clear Hrun.
    inversion Hrun'; subst result'; clear Hrun'.
    apply merge_success_fields in Hres, Hres'.
    destruct Hres as (-> & -> & ->). destruct Hres' as (-> & -> & ->).
    simpl w_fs.
    destruct (same_files_same_merge (w_fs w1) (w_fs w1')
                (sort_files_by_preference (p1 :: p2 :: rest)))
      as (Hc & Hr & _).
    { intros p Hp.
      assert (Hperm : Permutation (p1 :: p2 :: rest)
                        (sort_files_by_preference (p1 :: p2 :: rest)))
        by apply sorted_perm.
      apply (Permutation_in _ (Permutation_sym Hperm)) in Hp.
      rewrite <- Hvalid in Hp. apply filter_In in Hp. destruct Hp as [Hp _].
      apply (same_listing_same_files _ _ "input" p Hsame1 HR HR' Herr Herr' Hp). }
    repeat split; assumption.
Qed.

Lemma runs_on_same_input_agree_witness :
  3 = 3 /\ 2 = 2
  /\ [FileEntry "a.pdf" 2 6; FileEntry "B.pdf" 1 6]
     = [FileEntry "a.pdf" 2 6; FileEntry "B.pdf" 1 6].
Proof.
  exact (runs_on_same_input_agree posix_write posix_write
           clock
           (Environment true "20250101_000000" "/srv/merger/pdf_merger_debug.log" None)
           (start (disk [("B.pdf", B_pdf); ("a.pdf", a_pdf)] []))
           (start (disk [("B.pdf", B_pdf); ("a.pdf", a_pdf)]
                        [("merged_pdf_20240101_120000.pdf", C_pdf)]))
           "merged_pdf_20240101_120000.pdf" 3 2 10
           [FileEntry "a.pdf" 2 6; FileEntry "B.pdf" 1 6]
           "merged_pdf_20250101_000000.pdf" 3 2 10
           [FileEntry "a.pdf" 2 6; FileEntry "B.pdf" 1 6]
           eq_refl eq_refl eq_refl).
Defined.
